(** * DriveFileCounterWStatus02B: file categorisation and the two-pass scan

    A shallow embedding of [categorize_file] and [count_files_with_details]
    from [DriveFileCounterWStatus02B.py], together with the parts of the
    Python standard library they call ([os.path.splitext], [str.lower],
    [os.walk], [os.scandir]), and the properties of the scan proved over it;
    then the rest of the program ([progress_bar], [list_drives] and the
    menus down to [main]) over a terminal that is read and written. *)

From Stdlib Require Import ZArith Ascii String List Lia Permutation.
From stdpp Require Import gmap strings list fin_maps.

Local Open Scope string_scope.
Local Open Scope list_scope.

(** ** Strings

    File names are strings over the code points 0..255; [str.lower] is
    Python's on that range: [A-Z] and the Latin-1 capitals (U+00C0..U+00DE
    without the multiplication sign U+00D7) move up by 32, every other code
    point is left as it is. *)

Module PyStr.

Definition lower_char (c : ascii) : ascii :=
  let n := nat_of_ascii c in
  if ((65 <=? n) && (n <=? 90))%nat then ascii_of_nat (n + 32)
  else if ((192 <=? n) && (n <=? 222) && negb (n =? 215))%nat
       then ascii_of_nat (n + 32)
  else c.

(** [s.lower()] *)
Fixpoint lower (s : string) : string :=
  match s with
  | EmptyString => EmptyString
  | String c s' => String (lower_char c) (lower s')
  end.

(** [s.rfind(c)] for a one-character [c]: the highest index of [c] in [s],
    or -1.  The scan runs left to right and keeps the last index seen. *)
Fixpoint rfind_from (i last : Z) (s : string) (c : ascii) : Z :=
  match s with
  | EmptyString => last
  | String a s' => rfind_from (i + 1) (if Ascii.eqb a c then i else last) s' c
  end.

Definition rfind (s : string) (c : ascii) : Z := rfind_from 0 (-1) s c.

(** [s[i:i+1]] for [0 <= i]: the one-character slice, empty out of range. *)
Definition slice1 (s : string) (i : Z) : string :=
  substring (Z.to_nat i) 1 s.

(** [s[:i]] and [s[i:]] for [0 <= i]. *)
Definition take (i : Z) (s : string) : string := substring 0 (Z.to_nat i) s.
Definition drop (i : Z) (s : string) : string :=
  substring (Z.to_nat i) (String.length s - Z.to_nat i) s.

End PyStr.

(** ** os.path.splitext

    [genericpath._splitext(p, sep, altsep, extsep)], which both [posixpath]
    and [ntpath] call. *)

Inductive os_name := nt | posix.

Module OsPath.
Import PyStr.

(** The [while filenameIndex < dotIndex] loop: [Some] is the early
    [return p[:dotIndex], p[dotIndex:]], [None] is falling out of the loop.
    [n] bounds the iterations left, [dotIndex - filenameIndex]. *)
Fixpoint skip_leading_dots (n : nat) (p : string) (filenameIndex dotIndex : Z)
         (extsep : ascii) : option (string * string) :=
  match n with
  | O => None
  | S n' =>
      if (filenameIndex <? dotIndex)%Z then
        if negb (String.eqb (slice1 p filenameIndex) (String extsep EmptyString))
        then Some (take dotIndex p, drop dotIndex p)
        else skip_leading_dots n' p (filenameIndex + 1) dotIndex extsep
      else None
  end.

Definition _splitext (p : string) (sep : ascii) (altsep : option ascii)
           (extsep : ascii) : string * string :=
  let sepIndex := rfind p sep in
  let sepIndex :=
    match altsep with
    | Some a => Z.max sepIndex (rfind p a)
    | None => sepIndex
    end in
  let dotIndex := rfind p extsep in
  if (dotIndex >? sepIndex)%Z then
    let filenameIndex := (sepIndex + 1)%Z in
    match skip_leading_dots (Z.to_nat (dotIndex - filenameIndex)) p
                            filenameIndex dotIndex extsep with
    | Some r => r
    | None => (p, take 0 p)
    end
  else (p, take 0 p).

(** [os.path.splitext] is [ntpath.splitext] on Windows and
    [posixpath.splitext] elsewhere. *)
Definition splitext (os : os_name) (p : string) : string * string :=
  match os with
  | nt => _splitext p "\" (Some "/"%char) "."
  | posix => _splitext p "/" None "."
  end.

End OsPath.

(** ** File categorisation *)

(** The dict literal, as the ordered sequence of its items: a dict iterates
    in insertion order.  The extension sets are only tested for membership. *)
Definition FILE_CATEGORIES : list (string * list string) :=
  [ ("Images", [".jpg"; ".jpeg"; ".png"; ".gif"; ".bmp"; ".tiff"; ".svg"; ".webp"]);
    ("Videos", [".mp4"; ".avi"; ".mov"; ".mkv"; ".wmv"; ".flv"; ".webm"]);
    ("Audio", [".mp3"; ".wav"; ".flac"; ".aac"; ".ogg"; ".m4a"]);
    ("Documents", [".txt"; ".doc"; ".docx"; ".pdf"; ".xls"; ".xlsx"; ".ppt"; ".pptx"; ".csv"]);
    ("Scripts", [".py"; ".js"; ".ps1"; ".sh"; ".bat"; ".cmd"]);
    ("Archives", [".zip"; ".rar"; ".7z"; ".tar"; ".gz"]);
    ("Applications", [".exe"; ".msi"; ".bat"; ".cmd"]) ].

(** [ext in extensions] *)
Definition ext_in (ext : string) (extensions : list string) : bool :=
  existsb (String.eqb ext) extensions.

(** The [for category, extensions in ...: if ext in extensions: return
    category] loop over a table, with the final [return "Other"]. *)
Fixpoint first_category (ext : string) (table : list (string * list string)) : string :=
  match table with
  | [] => "Other"
  | (category, extensions) :: rest =>
      if ext_in ext extensions then category else first_category ext rest
  end.

Definition categorize_file (os : os_name) (file_path : string) : string :=
  let ext := PyStr.lower (snd (OsPath.splitext os file_path)) in
  first_category ext FILE_CATEGORIES.

(** The eight labels [categorize_file] can return. *)
Definition labels : list string :=
  ["Images"; "Videos"; "Audio"; "Documents"; "Scripts"; "Archives";
   "Applications"; "Other"].

(** [c] does not occur in [s]. *)
Fixpoint free_of (c : ascii) (s : string) : bool :=
  match s with
  | EmptyString => true
  | String a s' => negb (Ascii.eqb a c) && free_of c s'
  end.

(** One dot, then characters that are neither a dot nor a separator. *)
Definition dot_then_plain (s : string) : bool :=
  match s with
  | String "." s' => free_of "." s' && free_of "/" s' && free_of "\" s'
  | _ => false
  end.

(** ** The operating system, as the scan sees it *)

(** A path is the sequence of its components; [os.path.join(top, name)] is
    [top ++ [name]]. *)
Definition path := list string.

(** [ELOOP] is the plain [OSError] of a chain of links that never ends. *)
Inductive OSError :=
| PermissionError
| FileNotFoundError
| NotADirectoryError
| ELOOP.

Inductive result (A : Type) :=
| Ok (a : A)
| Raise (e : OSError).
Arguments Ok {A} a.
Arguments Raise {A} e.

(** What the scan reads of an [os.DirEntry].  [entry.is_file()] and
    [entry.is_dir()] look at what a link leads to, and raise when that
    cannot be examined. *)
Record DirEntry := {
  name : string;
  is_file : result bool;
  is_dir : result bool
}.

(** The console: the calls [progress_bar(current, total)], oldest first. *)
Definition console := list (nat * nat).

(** [filled] of [progress_bar]: the number of full cells of the bar. *)
Definition progress_bar_filled (current total bar_length : nat) : nat :=
  if (0 <? total)%nat then (bar_length * current / total)%nat else bar_length.

(** ** count_files_with_details *)

(** The returned tuple [(total_files, folder_count, category_counts)]; the
    same three are the locals of the loop. *)
Record ScanResult := {
  total_files : nat;
  folder_count : nat;
  category_counts : gmap string nat
}.

Inductive outcome :=
| Returned (r : ScanResult)
| Raised (e : OSError).

(** [category_counts[category] += 1] on a [defaultdict(int)] *)
Definition incr (category : string) (m : gmap string nat) : gmap string nat :=
  <[category := S (default 0 (m !! category))]> m.

(** [sum(category_counts.values())] *)
Definition sum_values (m : gmap string nat) : nat :=
  map_fold (fun _ v acc => v + acc) 0 m.

(** [enumerate(l, start)] *)
Fixpoint enumerate {A : Type} (start : nat) (l : list A) : list (nat * A) :=
  match l with
  | [] => []
  | x :: l' => (start, x) :: enumerate (S start) l'
  end.

Section Scan.

Variable os : os_name.
(** [os.walk(path)], run to its end: the triples it yields. *)
Variable os_walk : path -> list (path * list string * list string).
(** [os.scandir(root)], iterated to its end, or the error it raises.  (An
    error of the iteration itself, part of the way, is for the counters
    what an entry whose tests raise is at that place.) *)
Variable os_scandir : path -> result (list DirEntry).

Definition initial : ScanResult :=
  {| total_files := 0; folder_count := 0; category_counts := ∅ |}.

(** The body of [for entry in entries]: the locals after it, or the error
    one of the two tests raises, the locals then being as they were. *)
Definition count_entry (st : ScanResult) (entry : DirEntry) : result ScanResult :=
  match is_file entry with
  | Raise e => Raise e
  | Ok true =>
      let category := categorize_file os (name entry) in
      Ok {| total_files := total_files st + 1;
            folder_count := folder_count st;
            category_counts := incr category (category_counts st) |}
  | Ok false =>
      match is_dir entry with
      | Raise e => Raise e
      | Ok true =>
          Ok {| total_files := total_files st;
                folder_count := folder_count st + 1;
                category_counts := category_counts st |}
      | Ok false => Ok st
      end
  end.

(** [for entry in entries]: the locals when the loop is left, and the error
    that left it, if one did. *)
Fixpoint count_entries (st : ScanResult) (entries : list DirEntry)
  : ScanResult * option OSError :=
  match entries with
  | [] => (st, None)
  | entry :: rest =>
      match count_entry st entry with
      | Ok st' => count_entries st' rest
      | Raise e => (st, Some e)
      end
  end.

(** Step 2, [for i, root in enumerate(all_dirs, start=1)].  The [try] is
    around the listing and the loop over its entries: a [PermissionError]
    from either ends the work on [root] where it is, what was counted
    stays counted, and the progress bar is drawn; any other error leaves
    the function. *)
Fixpoint counting_pass (total_dirs : nat) (dirs : list (nat * path))
         (st : ScanResult) (out : console) : outcome * console :=
  match dirs with
  | [] => (Returned st, out)
  | (i, root) :: rest =>
      match os_scandir root with
      | Ok entries =>
          match count_entries st entries with
          | (st', None) | (st', Some PermissionError) =>
              counting_pass total_dirs rest st' (out ++ [(i, total_dirs)])
          | (_, Some e) => (Raised e, out)
          end
      | Raise PermissionError =>
          counting_pass total_dirs rest st (out ++ [(i, total_dirs)])
      | Raise e => (Raised e, out)
      end
  end.

Definition count_files_with_details (p : path) : outcome * console :=
  let all_dirs := map (fun '(root, dirs, files) => root) (os_walk p) in
  let total_dirs := length all_dirs in
  counting_pass total_dirs (enumerate 1 all_dirs) initial [].

End Scan.

(** ** What a listing adds to the counters *)

(** The error the tests of an entry raise in the loop, if they do:
    [is_dir()] is only asked when [is_file()] has said no. *)
Definition raises (entry : DirEntry) : option OSError :=
  match is_file entry with
  | Raise e => Some e
  | Ok true => None
  | Ok false =>
      match is_dir entry with
      | Raise e => Some e
      | Ok _ => None
      end
  end.

(** The first error the entries of a listing raise. *)
Fixpoint first_raise (entries : list DirEntry) : option OSError :=
  match entries with
  | [] => None
  | entry :: rest =>
      match raises entry with
      | Some e => Some e
      | None => first_raise rest
      end
  end.

(** The entries before the first one that raises. *)
Fixpoint counted (entries : list DirEntry) : list DirEntry :=
  match entries with
  | [] => []
  | entry :: rest =>
      match raises entry with
      | Some _ => []
      | None => entry :: counted rest
      end
  end.

(** The entry is counted as a file, as a folder. *)
Definition counts_as_file (entry : DirEntry) : bool :=
  match is_file entry with
  | Ok true => true
  | _ => false
  end.

Definition counts_as_folder (entry : DirEntry) : bool :=
  match is_file entry, is_dir entry with
  | Ok false, Ok true => true
  | _, _ => false
  end.

(** The counters after an entry whose tests answer. *)
Definition count_plain (os : os_name) (st : ScanResult) (entry : DirEntry)
  : ScanResult :=
  if counts_as_file entry then
    {| total_files := total_files st + 1;
       folder_count := folder_count st;
       category_counts := incr (categorize_file os (name entry)) (category_counts st) |}
  else if counts_as_folder entry then
    {| total_files := total_files st;
       folder_count := folder_count st + 1;
       category_counts := category_counts st |}
  else st.

(** The counters after the entries of [entries], none of which raises. *)
Definition tally (os : os_name) (st : ScanResult) (entries : list DirEntry)
  : ScanResult :=
  fold_left (count_plain os) entries st.

(** The error that ends the work on [root]: that of the listing, or the
    first of its entries. *)
Definition visit_error (os_scandir : path -> result (list DirEntry))
           (root : path) : option OSError :=
  match os_scandir root with
  | Ok entries => first_raise entries
  | Raise e => Some e
  end.

(** The entries of [root] that get counted. *)
Definition visit_entries (os_scandir : path -> result (list DirEntry))
           (root : path) : list DirEntry :=
  match os_scandir root with
  | Ok entries => counted entries
  | Raise _ => []
  end.

(** An error the [except] of the counting pass catches. *)
Definition caught (error : option OSError) : bool :=
  match error with
  | None | Some PermissionError => true
  | Some _ => false
  end.

(** The work on [root] ends without an error, or with [PermissionError]. *)
Definition passes (os_scandir : path -> result (list DirEntry))
           (root : path) : Prop :=
  caught (visit_error os_scandir root) = true.

(** The calls [progress_bar(start, total)], ..., one for each of [n]
    directories. *)
Definition progress_calls (start n total : nat) : console :=
  map (fun i => (i, total)) (seq start n).

(** The sum of the category counts is the number of files. *)
Definition balanced (st : ScanResult) : Prop :=
  sum_values (category_counts st) = total_files st.

(** The keys of [category_counts] are labels, and no count is zero or more
    than the number of files. *)
Definition keyed (st : ScanResult) : Prop :=
  forall category n,
    category_counts st !! category = Some n ->
    In category labels /\ 1 <= n <= total_files st.

(** ** A directory tree

    [File] is an entry for which [is_file()] holds, [Dir] one for which
    [is_dir()] holds, [Special] one for which neither does (a dangling link,
    a socket, a device).  Both tests follow symbolic links, so a [Dir] may be
    a link to a directory ([symlink]); its [children] are then those of the
    target.  [Link] is a link whose target cannot be examined, so that both
    tests raise: [PermissionError] for a link into a directory that cannot
    be passed through, [ELOOP] for a link that leads back to itself.  A
    directory that is not [readable] can be neither listed nor passed
    through. *)
#[local] Set Warnings "-register-all".
Inductive node : Type :=
| File (nm : string)
| Special (nm : string)
| Link (nm : string) (e : OSError)
| Dir (nm : string) (symlink readable : bool) (children : list node).

Definition node_name (n : node) : string :=
  match n with
  | File nm | Special nm | Link nm _ | Dir nm _ _ _ => nm
  end.

(** What [os.walk] takes for a directory: an entry whose [is_dir()] raises
    is not one. *)
Definition node_is_dir (n : node) : bool :=
  match n with Dir _ _ _ _ => true | _ => false end.

Definition node_is_file (n : node) : bool :=
  match n with File _ => true | _ => false end.

Definition entry_of (n : node) : DirEntry :=
  match n with
  | Link nm e => {| name := nm; is_file := Raise e; is_dir := Raise e |}
  | _ => {| name := node_name n;
            is_file := Ok (node_is_file n);
            is_dir := Ok (node_is_dir n) |}
  end.

(** The entry called [x] in a listing. *)
Definition child (x : string) (children : list node) : option node :=
  find (fun c => String.eqb (node_name c) x) children.

(** The node a path leads to, from the node [n] it starts at. *)
Fixpoint resolve (n : node) (p : path) : result node :=
  match p with
  | [] => Ok n
  | x :: p' =>
      match n with
      | Dir _ _ true children =>
          match child x children with
          | Some c => resolve c p'
          | None => Raise FileNotFoundError
          end
      | Dir _ _ false _ => Raise PermissionError
      | Link _ e => Raise e
      | _ => Raise NotADirectoryError
      end
  end.

(** [os.scandir(p)] *)
Definition scandir (fs : node) (p : path) : result (list DirEntry) :=
  match resolve fs p with
  | Ok (Dir _ _ true children) => Ok (map entry_of children)
  | Ok (Dir _ _ false _) => Raise PermissionError
  | Ok (Link _ e) => Raise e
  | Ok _ => Raise NotADirectoryError
  | Raise e => Raise e
  end.

(** [os.walk(top)] with its defaults ([topdown=True], [onerror=None],
    [followlinks=False]) below a node: a directory whose listing fails
    yields nothing, a listed one yields [(top, dirs, nondirs)] and is
    followed by the walks of its sub-directories that are not links, in
    listing order. *)
Fixpoint walk_from (top : path) (n : node) {struct n}
  : list (path * list string * list string) :=
  match n with
  | Dir _ _ true children =>
      (top,
       map node_name (List.filter node_is_dir children),
       map node_name (List.filter (fun c => negb (node_is_dir c)) children))
      :: flat_map (fun c =>
                     match c with
                     | Dir nm false _ _ => walk_from (top ++ [nm]) c
                     | _ => []
                     end) children
  | _ => []
  end.

Definition walk (fs : node) (top : path) : list (path * list string * list string) :=
  match resolve fs top with
  | Ok n => walk_from top n
  | Raise _ => []
  end.

(** No directory holds two entries of one name. *)
Fixpoint distinct_names (n : node) : bool :=
  match n with
  | Dir _ _ _ children =>
      bool_decide (NoDup (map node_name children))
      && forallb distinct_names children
  | _ => true
  end.

(** A file system: the tree below its root directory. *)
Record filesystem := {
  tree : node;
  tree_names : distinct_names tree = true
}.

(** The scan of [p] on the file system [fs]. *)
Definition scan (os : os_name) (fs : filesystem) (p : path) : outcome * console :=
  count_files_with_details os (walk (tree fs)) (scandir (tree fs)) p.

(** ** What the scan can see of a tree *)

(** The directories [walk_from] yields, each with its entries. *)
Fixpoint listed_from (top : path) (n : node) {struct n} : list (path * list node) :=
  match n with
  | Dir _ _ true children =>
      (top, children)
      :: flat_map (fun c =>
                     match c with
                     | Dir nm false _ _ => listed_from (top ++ [nm]) c
                     | _ => []
                     end) children
  | _ => []
  end.

(** The entries of the directories below [n] that can be listed and are
    reached through directories that can be listed and are not links: those
    of [n], then those below each of its sub-directories, in listing order. *)
Fixpoint visible_entries (n : node) : list DirEntry :=
  match n with
  | Dir _ _ true children =>
      map entry_of children
      ++ flat_map (fun c =>
                     match c with
                     | Dir _ false _ _ => visible_entries c
                     | _ => []
                     end) children
  | _ => []
  end.

(** Every directory of the tree can be listed. *)
Fixpoint accessible (n : node) : bool :=
  match n with
  | Dir _ _ readable children => readable && forallb accessible children
  | _ => true
  end.

(** No entry below [n] is a link to a directory. *)
Fixpoint no_links_below (n : node) : bool :=
  match n with
  | Dir _ _ _ children =>
      forallb (fun c => match c with
                        | Dir _ symlink _ _ => negb symlink
                        | _ => true
                        end && no_links_below c) children
  | _ => true
  end.

(** The tests of every entry below [n] answer: there is no [Link]. *)
Fixpoint answering (n : node) : bool :=
  match n with
  | Link _ _ => false
  | Dir _ _ _ children => forallb answering children
  | _ => true
  end.

(** Permissions taken away between the two passes: the directories in
    [denied] raise [PermissionError] when the counting pass lists them. *)
Definition revoke (denied : path -> bool)
           (os_scandir : path -> result (list DirEntry))
  : path -> result (list DirEntry) :=
  fun root => if denied root then Raise PermissionError else os_scandir root.

(** The entries the counting pass counts below [n], a directory at [top],
    when the directories in [denied] have lost their permission since the
    walk: of each directory the walk found and that still lists, the
    entries before the first one whose tests raise. *)
Definition seen_entries (denied : path -> bool) (top : path) (n : node)
  : list DirEntry :=
  flat_map (fun x => if denied (fst x) then [] else counted (map entry_of (snd x)))
           (listed_from top n).

(** No directory the walk found below [n], and that still lists, has an
    entry whose tests raise another error than [PermissionError] before one
    raises that. *)
Definition passable (denied : path -> bool) (top : path) (n : node) : bool :=
  forallb (fun x => denied (fst x) || caught (first_raise (map entry_of (snd x))))
          (listed_from top n).

(** ** Some file systems *)

Definition photos : filesystem :=
  {| tree := Dir "" false true
               [File "a.jpg"; File "b.mp3"; File "c.xyz"; Dir "sub" false true []];
     tree_names := eq_refl |}.

Definition empty_root : filesystem :=
  {| tree := Dir "" false true []; tree_names := eq_refl |}.

(** A root that cannot be listed. *)
Definition locked_root : filesystem :=
  {| tree := Dir "" false false [File "secret.txt"]; tree_names := eq_refl |}.

(** A readable root with a sub-directory that cannot be listed. *)
Definition locked_sub : filesystem :=
  {| tree := Dir "" false true
               [File "a.txt";
                Dir "open" false true [File "b.py"; Special "pipe"];
                Dir "locked" false false [File "c.png"; Dir "deep" false true []];
                File "d.EXE"];
     tree_names := eq_refl |}.

(** What the scan of [locked_sub] returns. *)
Definition locked_sub_result : ScanResult :=
  {| total_files := 3; folder_count := 2;
     category_counts := {[ "Documents" := 1; "Scripts" := 1; "Applications" := 1 ]} |}.

(** A fully readable root that holds a directory and a link to it. *)
Definition linked : filesystem :=
  {| tree := Dir "" false true
               [Dir "real" false true [File "x.pdf"];
                Dir "link" true true [File "x.pdf"]];
     tree_names := eq_refl |}.

(** A readable root with a locked sub-directory and a link that leads back
    to itself. *)
Definition looped : filesystem :=
  {| tree := Dir "" false true
               [File "a.txt";
                Link "loop" ELOOP;
                File "b.txt";
                Dir "locked" false false [File "c.txt"]];
     tree_names := eq_refl |}.

(** A readable root with a locked sub-directory and, listed before it, a
    link to a file in it. *)
Definition half_way : filesystem :=
  {| tree := Dir "" false true
               [File "a.txt";
                Link "into" PermissionError;
                File "b.txt";
                Dir "locked" false false [File "target"]];
     tree_names := eq_refl |}.

(** A tree that lists everywhere and has no link to a directory, with a
    link out of it into a directory that cannot be passed through. *)
Definition cut_short : filesystem :=
  {| tree := Dir "" false true
               [Dir "a" false true [];
                Link "out" PermissionError;
                Dir "b" false true [];
                Dir "c" false true []];
     tree_names := eq_refl |}.

(** ** The rest of the program: progress bar, drives, menus *)

(** *** progress_bar *)

(** A cell of the bar: the full block or the dash. *)
Inductive cell := Block | Dash.

(** [c * n] for a one-character string [c]: nothing when [n <= 0]. *)
Definition times (c : cell) (n : Z) : list cell := repeat c (Z.to_nat n).

(** [percent = (current / total) * 100 if total > 0 else 100]: the division
    of two integers gives a float, and raises [OverflowError] when the
    quotient is too large for one.  A float holds every magnitude below
    [2^1023], so the division is safe when [total] is not positive, where
    it is not done, and when [|current| < 2^1023 * total].  The product
    with 100 and the formatting do not raise. *)
Definition percent_safe (current total : Z) : bool :=
  negb (total >? 0)%Z || (Z.abs current <? 2 ^ 1023 * total)%Z.

(** ['█' * filled]: a string has at most [sys.maxsize] characters, which is
    [2^31 - 1] or more, and the product raises [OverflowError] beyond
    that; a bar shorter than [2^31] is one every platform can count. *)
Definition bar_safe (filled : Z) : bool := (filled <? 2 ^ 31)%Z.

(** The [bar] of [progress_bar(current, total, bar_length)].  [//] rounds
    down, as [Z.div] does; [int] of an integer is that integer.  The bar is
    written when the percentage could be computed, see [percent_safe]; the
    percentage itself, a float, is not modelled. *)
Definition progress_bar (current total bar_length : Z) : list cell :=
  let filled :=
    if (total >? 0)%Z then (bar_length * current / total)%Z else bar_length in
  times Block filled ++ times Dash (bar_length - filled).


(** *** list_drives *)

(** What [list_drives] reads of a [psutil] partition. *)
Record partition := {
  device : string;
  opts : string
}.

(** [sub in s] for strings. *)
Fixpoint str_in (sub s : string) : bool :=
  String.prefix sub s
  || match s with
     | EmptyString => false
     | String _ s' => str_in sub s'
     end.

Definition is_nt (os : os_name) : bool :=
  match os with nt => true | posix => false end.

(** A drive is a directory right below the root of the tree, and its device
    string the path to it. *)
Definition drive_path (drive : string) : path := [drive].

(** [os.path.exists(p)]: [False] when [p] cannot be reached. *)
Definition os_path_exists (fs : filesystem) (p : path) : bool :=
  match resolve (tree fs) p with
  | Ok _ => true
  | Raise _ => false
  end.

Definition list_drives (os : os_name) (fs : filesystem)
           (disk_partitions : list partition) : list string :=
  map device
      (List.filter (fun part => is_nt os
                                && negb (str_in "cdrom" (opts part))
                                && os_path_exists fs (drive_path (device part)))
                   disk_partitions).

(** *** The terminal *)

Inductive exn :=
| EOFError
| ValueError
| SystemExit (code : Z)
| OSErr (e : OSError).

(** What a call comes to: a value, an exception, or no end within the
    steps allowed. *)
Inductive ret (A : Type) :=
| Return (a : A)
| Throw (x : exn)
| OutOfFuel.
Arguments Return {A} a.
Arguments Throw {A} x.
Arguments OutOfFuel {A}.

(** What is kept of the output: the messages that are plain literals, the
    progress bars, and the figures of a scan.  Menu lines, headings and
    timings are not kept. *)
Inductive event :=
| Print (line : string)
| Bar (current total : nat)
| Results (selected : path) (r : ScanResult).

(** The lines still to be read, and what has been written, oldest first. *)
Record tty := {
  stdin : list string;
  stdout : list event
}.

Definition io (A : Type) : Type := tty -> ret A * tty.

Definition io_ret {A : Type} (a : A) : io A := fun t => (Return a, t).

Definition io_bind {A B : Type} (c : io A) (k : A -> io B) : io B :=
  fun t =>
    match c t with
    | (Return a, t') => k a t'
    | (Throw x, t') => (Throw x, t')
    | (OutOfFuel, t') => (OutOfFuel, t')
    end.

Notation "x <-- c ;; k" := (io_bind c (fun x => k))
  (at level 100, c at next level, right associativity).
Notation "c ;;; k" := (io_bind c (fun _ => k))
  (at level 100, right associativity).

Definition throw {A : Type} (x : exn) : io A := fun t => (Throw x, t).

Definition out_of_fuel {A : Type} : io A := fun t => (OutOfFuel, t).

(** [input(prompt)]: the next line, or [EOFError] at the end of the input. *)
Definition input : io string :=
  fun t =>
    match stdin t with
    | [] => (Throw EOFError, t)
    | line :: rest => (Return line, {| stdin := rest; stdout := stdout t |})
    end.

Definition write (es : list event) : io unit :=
  fun t => (Return tt, {| stdin := stdin t; stdout := stdout t ++ es |}).

Definition print (line : string) : io unit := write [Print line].

Definition pause : io unit := _ <-- input ;; io_ret tt.

(** *** Reading a choice *)

(** [c.isdigit()] on the code points 0..255: the ten digits and the
    superscripts one, two and three (U+00B9, U+00B2, U+00B3). *)
Definition isdigit_char (c : ascii) : bool :=
  let n := nat_of_ascii c in
  ((48 <=? n) && (n <=? 57))%nat || (n =? 178)%nat || (n =? 179)%nat || (n =? 185)%nat.

Fixpoint all_chars (f : ascii -> bool) (s : string) : bool :=
  match s with
  | EmptyString => true
  | String c s' => f c && all_chars f s'
  end.

(** [s.isdigit()]: all characters are digits and there is at least one. *)
Definition isdigit (s : string) : bool :=
  match s with
  | EmptyString => false
  | _ => all_chars isdigit_char s
  end.

(** The value of a decimal digit; the superscripts have none for [int]. *)
Definition decimal_char (c : ascii) : option N :=
  let n := N_of_ascii c in
  if ((48 <=? n) && (n <=? 57))%N then Some (n - 48)%N else None.

Fixpoint int_from (acc : N) (s : string) : option N :=
  match s with
  | EmptyString => Some acc
  | String c s' =>
      match decimal_char c with
      | Some d => int_from (10 * acc + d)%N s'
      | None => None
      end
  end.

(** [int(s)] for a string [s.isdigit()] accepts: its value, or [None] for
    [ValueError].  (The signs, blanks and underscores [int] takes as well
    never get past [isdigit].)  The bound that newer interpreters put on
    the number of digits is not here: a line this takes for a number may
    be one they refuse with [ValueError]. *)
Definition int (s : string) : option N :=
  match s with
  | EmptyString => None
  | _ => int_from 0 s
  end.

(** The superscript digits one, two and three. *)
Definition superscripts : list ascii := ["185"; "178"; "179"]%char.

(** What the two numbered menus make of a line, with [n] entries listed:
    [choice.isdigit()], [int(choice)], and the three-way test. *)
Inductive picked :=
| Again                    (* [return show_..._menu()] *)
| Entry (index : nat)      (* [1 <= choice <= n]: the entry [choice - 1] *)
| Last                     (* [choice == n + 1] *)
| Invalid.                 (* [int(choice)] raised [ValueError] *)

Definition pick (choice : string) (n : nat) : picked :=
  if negb (isdigit choice) then Again
  else match int choice with
       | None => Invalid
       | Some k =>
           if ((1 <=? k) && (k <=? N.of_nat n))%N then Entry (N.to_nat k - 1)
           else if (k =? N.of_nat n + 1)%N then Last
           else Again
       end.

(** *** The menus *)

Section Menus.

Variable os : os_name.
Variable fs : filesystem.
(** [psutil.disk_partitions(all=False)] *)
Variable disk_partitions : list partition.
(** [psutil.disk_usage(drive)]: the figures are only printed, so what counts
    is whether it raises. *)
Variable disk_usage : string -> result unit.

(** The [for i, drive in enumerate(drives, start=1)] loop of
    [show_drive_menu]: [PermissionError] is caught. *)
Fixpoint show_usage (drives : list string) : io unit :=
  match drives with
  | [] => io_ret tt
  | drive :: rest =>
      match disk_usage drive with
      | Ok _ | Raise PermissionError => show_usage rest
      | Raise e => throw (OSErr e)
      end
  end.

Fixpoint show_drive_menu (fuel : nat) : io (option string) :=
  match fuel with
  | O => out_of_fuel
  | S fuel' =>
      let drives := list_drives os fs disk_partitions in
      match drives with
      | [] => print "No drives found." ;;; io_ret None
      | _ :: _ =>
          show_usage drives ;;;
          choice <-- input ;;
          match pick choice (length drives) with
          | Again => show_drive_menu fuel'
          | Invalid => throw ValueError
          | Entry i => io_ret (Some (nth i drives ""))
          | Last => print "Goodbye!" ;;; throw (SystemExit 0)
          end
      end
  end.

(** [count_files_with_details(selected)] and the printing of its figures,
    as [show_folder_menu] and [main_menu] do it. *)
Definition count_and_report (selected : path) : io unit :=
  let '(o, out) := scan os fs selected in
  write (map (fun c => Bar (fst c) (snd c)) out) ;;;
  match o with
  | Returned r => write [Results selected r]
  | Raised e => throw (OSErr e)
  end.

(** [[f.path for f in os.scandir(base_path) if f.is_dir()]]: the first
    [is_dir()] that raises ends the comprehension. *)
Fixpoint subfolders (base_path : path) (entries : list DirEntry)
  : result (list path) :=
  match entries with
  | [] => Ok []
  | f :: rest =>
      match is_dir f with
      | Raise e => Raise e
      | Ok b =>
          match subfolders base_path rest with
          | Raise e => Raise e
          | Ok folders => Ok (if b then (base_path ++ [name f]) :: folders else folders)
          end
      end
  end.

(** The [try] of [show_folder_menu]: the listing and the comprehension
    over it. *)
Definition list_subfolders (fs : filesystem) (base_path : path)
  : result (list path) :=
  match scandir (tree fs) base_path with
  | Ok entries => subfolders base_path entries
  | Raise e => Raise e
  end.

Fixpoint show_folder_menu (fuel : nat) (base_path : path) : io unit :=
  match fuel with
  | O => out_of_fuel
  | S fuel' =>
      match list_subfolders fs base_path with
      | Raise PermissionError =>
          print "Access denied to this folder." ;;; pause
      | Raise e => throw (OSErr e)
      | Ok [] => print "No subfolders found." ;;; pause
      | Ok folders =>
          choice <-- input ;;
          match pick choice (length folders) with
          | Again => show_folder_menu fuel' base_path
          | Invalid => throw ValueError
          | Entry i =>
              count_and_report (nth i folders []) ;;;
              pause ;;;
              show_folder_menu fuel' base_path
          | Last => io_ret tt
          end
      end
  end.

(** [main_menu(drive)]: one round of the [while True] for each unit of
    [fuel]. *)
Fixpoint main_menu (fuel : nat) (drive : string) : io unit :=
  match fuel with
  | O => out_of_fuel
  | S fuel' =>
      choice <-- input ;;
      if String.eqb choice "1" then
        count_and_report (drive_path drive) ;;; pause ;;; main_menu fuel' drive
      else if String.eqb choice "2" then
        show_folder_menu fuel' (drive_path drive) ;;; main_menu fuel' drive
      else if String.eqb choice "3" then io_ret tt
      else if String.eqb choice "4" then print "Goodbye!" ;;; throw (SystemExit 0)
      else print "Invalid option." ;;; main_menu fuel' drive
  end.

(** [main()]: [if drive:] passes over [None] and the empty string. *)
Fixpoint main (fuel : nat) : io unit :=
  match fuel with
  | O => out_of_fuel
  | S fuel' =>
      drive <-- show_drive_menu fuel' ;;
      match drive with
      | Some (String c d) => main_menu fuel' (String c d) ;;; main fuel'
      | _ => main fuel'
      end
  end.

End Menus.

(** *** What the menus leave behind *)

(** The terminal [t'] is [t] after some lines were read and some events
    written. *)
Definition reads (t t' : tty) (consumed : list string) : Prop :=
  stdin t = consumed ++ stdin t'.

Definition writes (t t' : tty) (added : list event) : Prop :=
  stdout t' = stdout t ++ added.

(** A [Results] event tells the truth: it is for a path in [allowed], the
    figures are those the scan of that path returns, and they add up. *)
Definition reported (os : os_name) (fs : filesystem) (allowed : path -> Prop)
           (e : event) : Prop :=
  match e with
  | Results selected r =>
      allowed selected
      /\ fst (scan os fs selected) = Returned r
      /\ balanced r
  | _ => True
  end.

(** The paths of the sub-directories [show_folder_menu] lists for
    [base_path]. *)
Definition subfolder_of (fs : filesystem) (base_path selected : path) : Prop :=
  exists entries entry,
    scandir (tree fs) base_path = Ok entries
    /\ In entry entries /\ is_dir entry = Ok true
    /\ selected = base_path ++ [name entry].

(** From [t] to [t'] lines were read, and events written that, where they
    are results, are true results for paths in [allowed]. *)
Definition traced (os : os_name) (fs : filesystem) (allowed : path -> Prop)
           (t t' : tty) : Prop :=
  (exists consumed, reads t t' consumed)
  /\ (exists added, writes t t' added /\ Forall (reported os fs allowed) added).

(** *** A machine with drives *)

(** Two drives that are there, one of them locked, below the root. *)
Definition machine : filesystem :=
  {| tree := Dir "" false true
               [Dir "C:\" false true
                    [File "boot.ini";
                     Dir "Users" false true [File "me.png"; Dir "docs" false true []];
                     Dir "System" false false [File "sam"];
                     File "run.bat"];
                Dir "D:\" false false [File "hidden.mp4"]];
     tree_names := eq_refl |}.

Definition machine_partitions : list partition :=
  [ {| device := "C:\"; opts := "rw,fixed" |};
    {| device := "E:\"; opts := "ro,cdrom" |};
    {| device := "D:\"; opts := "rw,fixed" |};
    {| device := "Z:\"; opts := "rw,removable" |} ].

Definition machine_usage (drive : string) : result unit :=
  if String.eqb drive "D:\" then Raise PermissionError else Ok tt.

Definition typed (lines : list string) : tty := {| stdin := lines; stdout := [] |}.

(** * Properties of the categoriser *)

Example categorize_photo : categorize_file nt "Holiday.JPG" = "Images".
Proof. reflexivity. Qed.
Example categorize_tarball : categorize_file posix "src.tar.gz" = "Archives".
Proof. reflexivity. Qed.
Example categorize_batch : categorize_file nt "run.BAT" = "Scripts".
Proof. reflexivity. Qed.
Example categorize_dotfile : categorize_file posix ".jpg" = "Other".
Proof. reflexivity. Qed.
Example categorize_noext : categorize_file posix "Makefile" = "Other".
Proof. reflexivity. Qed.
Example splitext_dots : OsPath.splitext posix "...a.b" = ("...a", ".b").
Proof. reflexivity. Qed.

Section Categoriser.

Lemma ext_in_spec ext extensions : ext_in ext extensions = true <-> In ext extensions.
Proof.
  unfold ext_in. rewrite existsb_exists. split.
  - intros (x & Hx & Heq). apply String.eqb_eq in Heq. now subst.
  - intros H. exists ext. split; [assumption | apply String.eqb_refl].
Qed.

Lemma ext_in_false ext extensions : ext_in ext extensions = false <-> ~ In ext extensions.
Proof.
  rewrite <- ext_in_spec. destruct (ext_in ext extensions); split; congruence.
Qed.

(** The loop returns the label of the first row that holds the extension. *)
Lemma first_category_first_match ext table before category extensions after :
  table = before ++ (category, extensions) :: after ->
  Forall (fun row => ext_in ext (snd row) = false) before ->
  ext_in ext extensions = true ->
  first_category ext table = category.
Proof.
  intros -> Hbefore Hin. induction Hbefore as [| [c e] before Hrow _ IH]; simpl.
  - now rewrite Hin.
  - simpl in Hrow. now rewrite Hrow.
Qed.

(** It returns ["Other"] exactly when it runs off the end of the table. *)
Lemma first_category_no_match ext table :
  Forall (fun row => ext_in ext (snd row) = false) table ->
  first_category ext table = "Other".
Proof.
  induction 1 as [| [c e] rest Hrow _ IH]; simpl; [reflexivity |].
  simpl in Hrow. now rewrite Hrow.
Qed.

Lemma first_category_label ext table :
  In (first_category ext table) (map fst table ++ ["Other"]).
Proof.
  induction table as [| [c e] rest IH]; simpl.
  - now left.
  - destruct (ext_in ext e); [now left | now right].
Qed.

End Categoriser.

(** C4: a name whose lower-cased extension is [".bat"] or [".cmd"] is put in
    ["Scripts"], on either platform: the table is gone through in the order
    it is written in, the ["Scripts"] row holds the extension, no row before
    it does, and the ["Applications"] row, which holds it too, comes later. *)
Theorem categorize_bat_cmd_Scripts (os : os_name) (file_path : string) :
  let ext := PyStr.lower (snd (OsPath.splitext os file_path)) in
  ext = ".bat" \/ ext = ".cmd" ->
  categorize_file os file_path = "Scripts"
  /\ exists before scripts mid applications after,
      FILE_CATEGORIES
      = before ++ ("Scripts", scripts) :: mid ++ ("Applications", applications) :: after
      /\ Forall (fun row => ext_in ext (snd row) = false) before
      /\ ext_in ext scripts = true
      /\ ext_in ext applications = true.
Proof.
  intros ext Hext. split.
  - unfold categorize_file. fold ext. destruct Hext as [-> | ->]; reflexivity.
  - exists (firstn 4 FILE_CATEGORIES),
      [".py"; ".js"; ".ps1"; ".sh"; ".bat"; ".cmd"],
      [("Archives", [".zip"; ".rar"; ".7z"; ".tar"; ".gz"])],
      [".exe"; ".msi"; ".bat"; ".cmd"], [].
    split; [reflexivity |].
    destruct Hext as [-> | ->]; (split; [| split; reflexivity]);
      repeat constructor.
Qed.

Lemma categorize_bat_cmd_Scripts_witness :
  categorize_file nt "Setup.CMD" = "Scripts"
  /\ categorize_file posix "build.bat" = "Scripts".
Proof.
  split.
  - apply (categorize_bat_cmd_Scripts nt "Setup.CMD"). right. reflexivity.
  - apply (categorize_bat_cmd_Scripts posix "build.bat"). left. reflexivity.
Defined.

(** C6: on either platform [categorize_file] is a total function of the
    name alone, so one name has one label, and nothing else is read or
    changed; the label is one of the seven of the table or ["Other"], which
    are eight different strings; and it is ["Other"] when the name has no
    extension and when no row of the table holds its lower-cased extension. *)
Theorem categorize_file_label (os : os_name) (file_path : string) :
  let ext := PyStr.lower (snd (OsPath.splitext os file_path)) in
  In (categorize_file os file_path) labels
  /\ NoDup labels
  /\ labels = map fst FILE_CATEGORIES ++ ["Other"]
  /\ (forall other_path, other_path = file_path ->
        categorize_file os other_path = categorize_file os file_path)
  /\ (snd (OsPath.splitext os file_path) = "" ->
        categorize_file os file_path = "Other")
  /\ ((forall category extensions,
          In (category, extensions) FILE_CATEGORIES -> ~ In ext extensions) ->
        categorize_file os file_path = "Other").
Proof.
  intros ext. repeat split.
  - apply (first_category_label _ FILE_CATEGORIES).
  - unfold labels. apply NoDup_ListNoDup.
    repeat (constructor; [simpl; intuition discriminate |]). constructor.
  - intros other_path ->. reflexivity.
  - intros Hnone. unfold categorize_file. rewrite Hnone. reflexivity.
  - intros Hnot. unfold categorize_file. fold ext.
    apply first_category_no_match. apply List.Forall_forall.
    intros [c e] Hrow. simpl. apply ext_in_false. eauto.
Qed.

Lemma categorize_file_label_witness :
  categorize_file posix "README" = "Other"
  /\ categorize_file nt "notes.xyz" = "Other".
Proof.
  split.
  - destruct (categorize_file_label posix "README") as (_ & _ & _ & _ & Hnone & _).
    apply Hnone. reflexivity.
  - destruct (categorize_file_label nt "notes.xyz") as (_ & _ & _ & _ & _ & Hnot).
    apply Hnot. intros category extensions Hrow Hin. revert Hin.
    unfold FILE_CATEGORIES in Hrow. simpl in Hrow.
    repeat (destruct Hrow as [Hrow | Hrow];
            [ injection Hrow as <- <-; vm_compute; intuition discriminate |]).
    destruct Hrow.
Defined.

(** ** Names that start with a dot *)

Section Dotfiles.
Import PyStr OsPath.

Lemma rfind_from_free c s : free_of c s = true ->
  forall i last, rfind_from i last s c = last.
Proof.
  induction s as [| a s IH]; simpl; intros Hfree i last; [reflexivity |].
  apply andb_true_iff in Hfree as [Ha Hs].
  apply negb_true_iff in Ha. rewrite Ha. now apply IH.
Qed.

Lemma splitext_dot_then_plain os s :
  dot_then_plain s = true -> splitext os s = (s, "").
Proof.
  destruct s as [| c s]; [discriminate |]. simpl.
  destruct (Ascii.eqb_spec c "."); [subst c | now destruct c as [[] [] [] [] [] [] [] []]].
  intros H. apply andb_true_iff in H as [H Hbs].
  apply andb_true_iff in H as [Hdot Hsl].
  destruct os; unfold splitext, _splitext, rfind; simpl;
    rewrite ?(rfind_from_free _ _ Hdot), ?(rfind_from_free _ _ Hsl),
      ?(rfind_from_free _ _ Hbs); reflexivity.
Qed.

Lemma lower_char_keeps c d :
  In d ["."; "/"; "\"]%char -> lower_char c = d -> c = d.
Proof.
  intros Hd <-. revert Hd.
  destruct c as [[] [] [] [] [] [] [] []]; vm_compute; intuition congruence.
Qed.

Lemma free_of_lower d s :
  In d ["."; "/"; "\"]%char -> free_of d (lower s) = true -> free_of d s = true.
Proof.
  intros Hd. induction s as [| a s IH]; simpl; [reflexivity |].
  intros H. apply andb_true_iff in H as [Ha Hs].
  rewrite (IH Hs), andb_true_r. apply negb_true_iff in Ha.
  apply negb_true_iff. destruct (Ascii.eqb_spec a d) as [-> |]; [| reflexivity].
  rewrite <- Ha. symmetry. apply Ascii.eqb_eq.
  revert Hd. clear. simpl. intros [<- | [<- | [<- | []]]]; reflexivity.
Qed.

Lemma dot_then_plain_lower s :
  dot_then_plain (lower s) = true -> dot_then_plain s = true.
Proof.
  destruct s as [| c s]; [discriminate |]. simpl.
  destruct (Ascii.eqb_spec (lower_char c) ".") as [Hc |];
    [| now destruct (lower_char c) as [[] [] [] [] [] [] [] []]].
  rewrite Hc. apply lower_char_keeps in Hc; [subst c | now left].
  intros H. apply andb_true_iff in H as [H Hbs].
  apply andb_true_iff in H as [Hdot Hsl].
  rewrite (free_of_lower "." s), (free_of_lower "/" s), (free_of_lower "\" s);
    simpl; auto.
Qed.

(** The same with one more dot in front: the loop of [_splitext] steps over
    the first dot and ends at the second. *)
Lemma splitext_dot_dot_plain os s :
  dot_then_plain s = true -> splitext os (String "." s) = (String "." s, "").
Proof.
  destruct s as [| c s]; [discriminate |]. simpl.
  destruct (Ascii.eqb_spec c "."); [subst c | now destruct c as [[] [] [] [] [] [] [] []]].
  intros H. apply andb_true_iff in H as [H Hbs].
  apply andb_true_iff in H as [Hdot Hsl].
  destruct os; unfold splitext, _splitext, rfind; simpl;
    rewrite ?(rfind_from_free _ _ Hdot), ?(rfind_from_free _ _ Hsl),
      ?(rfind_from_free _ _ Hbs); reflexivity.
Qed.

(** Every extension of the table is a dot and then plain characters. *)
Lemma FILE_CATEGORIES_plain :
  forallb (fun row => forallb dot_then_plain (snd row)) FILE_CATEGORIES = true.
Proof. reflexivity. Qed.

End Dotfiles.

(** C9: a file name that is, in any letter case, one of the extensions of
    the table ([".jpg"], [".PY"], ...), or such an extension with one more
    dot in front (["..jpg"]), is put in ["Other"] on
    either platform: [os.path.splitext] takes a name whose only dots lead it
    to have no extension. *)
Theorem categorize_dotfile_Other (os : os_name) (file_name : string)
        (category : string) (extensions : list string) :
  In (category, extensions) FILE_CATEGORIES ->
  In (PyStr.lower file_name) extensions
  \/ (exists rest, file_name = String "." rest /\ In (PyStr.lower rest) extensions) ->
  OsPath.splitext os file_name = (file_name, "")
  /\ categorize_file os file_name = "Other".
Proof.
  intros Hrow Hext.
  assert (Hplain : forall e, In (PyStr.lower e) extensions -> dot_then_plain e = true).
  { intros e He. apply dot_then_plain_lower.
    pose proof FILE_CATEGORIES_plain as Hall.
    rewrite forallb_forall in Hall. specialize (Hall _ Hrow). simpl in Hall.
    rewrite forallb_forall in Hall. now apply Hall. }
  assert (Hsplit : OsPath.splitext os file_name = (file_name, "")).
  { destruct Hext as [Hext | (rest & -> & Hext)].
    - now apply splitext_dot_then_plain, Hplain.
    - now apply splitext_dot_dot_plain, Hplain. }
  split; [assumption |].
  unfold categorize_file. rewrite Hsplit. reflexivity.
Qed.

Lemma categorize_dotfile_Other_witness :
  categorize_file nt ".jpg" = "Other" /\ categorize_file posix "..Py" = "Other".
Proof.
  split.
  - apply (categorize_dotfile_Other nt ".jpg" "Images"
             [".jpg"; ".jpeg"; ".png"; ".gif"; ".bmp"; ".tiff"; ".svg"; ".webp"]).
    + simpl. left. reflexivity.
    + left. simpl. left. reflexivity.
  - apply (categorize_dotfile_Other posix "..Py" "Scripts"
             [".py"; ".js"; ".ps1"; ".sh"; ".bat"; ".cmd"]).
    + simpl. do 4 right. left. reflexivity.
    + right. exists ".Py". split; [reflexivity |]. simpl. left. reflexivity.
Defined.

(** * The counting pass, for any operating system *)

Lemma sum_values_incr category (m : gmap string nat) :
  sum_values (incr category m) = S (sum_values m).
Proof.
  assert (Hcomm : forall z1 z2 y : nat,
             z1 + (z2 + y) = z2 + (z1 + y)) by (intros; lia).
  unfold sum_values, incr. destruct (m !! category) as [v |] eqn:Hlook; simpl.
  - rewrite <- insert_delete_eq.
    rewrite map_fold_insert_L; [| intros; apply Hcomm | apply lookup_delete_eq].
    rewrite (map_fold_delete_L _ _ category v m); [lia | intros; apply Hcomm | exact Hlook].
  - rewrite map_fold_insert_L; [reflexivity | intros; apply Hcomm | exact Hlook].
Qed.

Lemma enumerate_length {A} (l : list A) start : length (enumerate start l) = length l.
Proof. revert start. induction l; simpl; intros; [reflexivity | now rewrite IHl]. Qed.

Lemma enumerate_app {A} (l l' : list A) start :
  enumerate start (l ++ l') = enumerate start l ++ enumerate (start + length l) l'.
Proof.
  revert start. induction l as [| x l IH]; simpl; intros start.
  - now rewrite Nat.add_0_r.
  - rewrite IH. do 3 f_equal. lia.
Qed.

Section ScanFacts.

Variable os : os_name.
Variable os_walk : path -> list (path * list string * list string).
Variable os_scandir : path -> result (list DirEntry).

(** An entry whose tests answer is counted as [count_plain] says; one whose
    tests raise leaves the loop with that error. *)
Lemma count_entry_cases st entry :
  count_entry os st entry
  = match raises entry with
    | None => Ok (count_plain os st entry)
    | Some e => Raise e
    end.
Proof.
  unfold count_entry, raises, count_plain, counts_as_file, counts_as_folder.
  destruct (is_file entry) as [[] | e]; try reflexivity.
  destruct (is_dir entry) as [[] | e]; reflexivity.
Qed.

(** The loop counts the entries before the first that raises, and leaves
    with the error of that one. *)
Lemma count_entries_counted entries : forall st,
  count_entries os st entries = (tally os st (counted entries), first_raise entries).
Proof.
  induction entries as [| entry rest IH]; intros st; simpl; [reflexivity |].
  rewrite count_entry_cases. destruct (raises entry); [reflexivity | apply IH].
Qed.

Lemma tally_app st entries entries' :
  tally os st (entries ++ entries') = tally os (tally os st entries) entries'.
Proof. apply fold_left_app. Qed.

(** A property of the counters that counting an entry keeps holds of what
    a listing leaves. *)
Lemma tally_invariant (P : ScanResult -> Prop) :
  (forall st e, P st -> P (count_plain os st e)) ->
  forall entries st, P st -> P (tally os st entries).
Proof.
  intros Hstep. unfold tally.
  induction entries as [| e entries IH]; simpl; intros st Hst; auto.
Qed.

Lemma count_plain_balanced st entry : balanced st -> balanced (count_plain os st entry).
Proof.
  unfold balanced, count_plain. intros Hst.
  destruct (counts_as_file entry); simpl; [rewrite sum_values_incr; lia |].
  destruct (counts_as_folder entry); simpl; assumption.
Qed.

(** What [tally] adds to the three counters. *)
Lemma tally_counts entries : forall st,
  let st' := tally os st entries in
  total_files st' = total_files st + length (List.filter counts_as_file entries)
  /\ folder_count st'
     = folder_count st
       + length (List.filter (fun e => negb (counts_as_file e) && counts_as_folder e)
                             entries)
  /\ forall category,
      default 0 (category_counts st' !! category)
      = default 0 (category_counts st !! category)
        + length (List.filter
                    (fun e => counts_as_file e
                              && String.eqb (categorize_file os (name e)) category)
                    entries).
Proof.
  unfold tally.
  induction entries as [| e entries IH]; intros st; simpl.
  - repeat split; intros; lia.
  - destruct (IH (count_plain os st e)) as (Hf & Hd & Hc).
    rewrite Hf, Hd. unfold count_plain.
    repeat split.
    + destruct (counts_as_file e); simpl; [lia |].
      destruct (counts_as_folder e); simpl; lia.
    + destruct (counts_as_file e); simpl; [lia |].
      destruct (counts_as_folder e); simpl; lia.
    + intros category. rewrite Hc. unfold count_plain.
      destruct (counts_as_file e); simpl.
      * unfold incr.
        destruct (String.eqb_spec (categorize_file os (name e)) category) as [-> | Hne].
        -- rewrite lookup_insert_eq. simpl. lia.
        -- rewrite lookup_insert_ne by assumption. lia.
      * destruct (counts_as_folder e); simpl; lia.
Qed.

(** One round of the pass, by what ends the work on the directory. *)
Lemma counting_pass_round total_dirs i root rest st out :
  counting_pass os os_scandir total_dirs ((i, root) :: rest) st out
  = match visit_error os_scandir root with
    | None | Some PermissionError =>
        counting_pass os os_scandir total_dirs rest
                      (tally os st (visit_entries os_scandir root))
                      (out ++ [(i, total_dirs)])
    | Some e => (Raised e, out)
    end.
Proof.
  simpl. unfold visit_error, visit_entries.
  destruct (os_scandir root) as [entries | e].
  - rewrite count_entries_counted. reflexivity.
  - destruct e; reflexivity.
Qed.

(** The pass over directories the work on which all ends without an error
    or with [PermissionError]: it returns, has counted of each the entries
    before that error, and has drawn the bar once for each directory. *)
Lemma counting_pass_returns total_dirs dirs : forall start st out,
  Forall (passes os_scandir) dirs ->
  counting_pass os os_scandir total_dirs (enumerate start dirs) st out
  = (Returned (tally os st (flat_map (visit_entries os_scandir) dirs)),
     out ++ progress_calls start (length dirs) total_dirs).
Proof.
  induction dirs as [| root dirs IH]; intros start st out Hall.
  - unfold progress_calls. simpl. now rewrite app_nil_r.
  - apply Forall_cons in Hall as [Hroot Hall].
    change (enumerate start (root :: dirs))
      with ((start, root) :: enumerate (S start) dirs).
    rewrite counting_pass_round. unfold passes in Hroot.
    assert (Hnext : counting_pass os os_scandir total_dirs (enumerate (S start) dirs)
                      (tally os st (visit_entries os_scandir root))
                      (out ++ [(start, total_dirs)])
                    = (Returned (tally os st (flat_map (visit_entries os_scandir)
                                                       (root :: dirs))),
                       out ++ progress_calls start (length (root :: dirs)) total_dirs)).
    { rewrite IH by assumption. simpl flat_map. rewrite tally_app.
      unfold progress_calls. simpl. now rewrite <- app_assoc. }
    destruct (visit_error os_scandir root) as [[] |]; try discriminate; exact Hnext.
Qed.

(** A pass that comes to a directory the work on which ends with another
    error, after directories that pass, raises that error, having drawn the
    bar for the directories before. *)
Lemma counting_pass_raises total_dirs before root after e : forall start st out,
  Forall (passes os_scandir) before ->
  visit_error os_scandir root = Some e ->
  e <> PermissionError ->
  counting_pass os os_scandir total_dirs
                (enumerate start (before ++ root :: after)) st out
  = (Raised e, out ++ progress_calls start (length before) total_dirs).
Proof.
  induction before as [| d before IH]; intros start st out Hall Hroot He.
  - change (enumerate start ([] ++ root :: after))
      with ((start, root) :: enumerate (S start) after).
    rewrite counting_pass_round, Hroot. unfold progress_calls. simpl.
    rewrite app_nil_r. now destruct e.
  - apply Forall_cons in Hall as [Hd Hall].
    change (enumerate start ((d :: before) ++ root :: after))
      with ((start, d) :: enumerate (S start) (before ++ root :: after)).
    rewrite counting_pass_round. unfold passes in Hd.
    assert (Hnext : forall st',
               counting_pass os os_scandir total_dirs
                 (enumerate (S start) (before ++ root :: after)) st'
                 (out ++ [(start, total_dirs)])
               = (Raised e, out ++ progress_calls start (length (d :: before)) total_dirs)).
    { intros st'. rewrite IH by assumption.
      unfold progress_calls. simpl. now rewrite <- app_assoc. }
    destruct (visit_error os_scandir d) as [[] |]; try discriminate; apply Hnext.
Qed.

(** However the pass ends, the bar has been drawn for the first [k]
    directories, one after the other; for all of them when it returns, and
    when it raises it is on the next one that the work ended with the
    error raised. *)
Lemma counting_pass_calls total_dirs dirs : forall start st out o out',
  counting_pass os os_scandir total_dirs (enumerate start dirs) st out = (o, out') ->
  exists k,
    k <= length dirs
    /\ out' = out ++ progress_calls start k total_dirs
    /\ Forall (passes os_scandir) (take k dirs)
    /\ match o with
       | Returned _ => k = length dirs
       | Raised e =>
           e <> PermissionError
           /\ exists root, dirs !! k = Some root
                           /\ visit_error os_scandir root = Some e
       end.
Proof.
  induction dirs as [| root dirs IH]; intros start st out o out' Hrun.
  - injection Hrun as <- <-. exists 0. unfold progress_calls. simpl.
    rewrite app_nil_r. repeat split; constructor.
  - change (enumerate start (root :: dirs))
      with ((start, root) :: enumerate (S start) dirs) in Hrun.
    rewrite counting_pass_round in Hrun.
    assert (Hnext : caught (visit_error os_scandir root) = true ->
               forall st',
                 counting_pass os os_scandir total_dirs (enumerate (S start) dirs) st'
                               (out ++ [(start, total_dirs)]) = (o, out') ->
                 exists k,
                   k <= length (root :: dirs)
                   /\ out' = out ++ progress_calls start k total_dirs
                   /\ Forall (passes os_scandir) (take k (root :: dirs))
                   /\ match o with
                      | Returned _ => k = length (root :: dirs)
                      | Raised e =>
                          e <> PermissionError
                          /\ exists root0, (root :: dirs) !! k = Some root0
                                           /\ visit_error os_scandir root0 = Some e
                      end).
    { intros Hroot st' Hrest.
      apply IH in Hrest as (k & Hk & -> & Hall & Ho). exists (S k). simpl.
      split; [lia |]. split; [unfold progress_calls; simpl; now rewrite <- app_assoc |].
      split; [now constructor |].
      destruct o; [now f_equal | exact Ho]. }
    assert (Hstop : forall e, visit_error os_scandir root = Some e ->
               e <> PermissionError -> (Raised e, out) = (o, out') ->
               exists k,
                 k <= length (root :: dirs)
                 /\ out' = out ++ progress_calls start k total_dirs
                 /\ Forall (passes os_scandir) (take k (root :: dirs))
                 /\ match o with
                    | Returned _ => k = length (root :: dirs)
                    | Raised e0 =>
                        e0 <> PermissionError
                        /\ exists root0, (root :: dirs) !! k = Some root0
                                         /\ visit_error os_scandir root0 = Some e0
                    end).
    { intros e Hroot He Heq. injection Heq as <- <-. exists 0.
      unfold progress_calls. simpl. rewrite app_nil_r.
      split; [lia |]. split; [reflexivity |]. split; [constructor |].
      split; [exact He |]. now exists root. }
    destruct (visit_error os_scandir root) as [[] |] eqn:Hroot;
      first [ eapply Hnext; [reflexivity | exact Hrun]
            | eapply Hstop; [reflexivity | discriminate | exact Hrun] ].
Qed.

(** Whatever the pass leaves in its counters has a property that holds at
    the start and that counting an entry keeps. *)
Lemma counting_pass_invariant (P : ScanResult -> Prop) total_dirs dirs :
  (forall st e, P st -> P (count_plain os st e)) ->
  forall st out r out',
    P st ->
    counting_pass os os_scandir total_dirs dirs st out = (Returned r, out') ->
    P r.
Proof.
  intros Hstep.
  induction dirs as [| [i root] dirs IH]; intros st out r out' Hst Hrun.
  - simpl in Hrun. now injection Hrun as <- _.
  - rewrite counting_pass_round in Hrun.
    assert (Hnext : counting_pass os os_scandir total_dirs dirs
                      (tally os st (visit_entries os_scandir root))
                      (out ++ [(i, total_dirs)]) = (Returned r, out') -> P r).
    { apply IH. now apply tally_invariant. }
    destruct (visit_error os_scandir root) as [[] |]; try discriminate;
      now apply Hnext.
Qed.

Lemma counting_pass_balanced total_dirs dirs : forall st out o out',
  balanced st ->
  counting_pass os os_scandir total_dirs dirs st out = (o, out') ->
  match o with Returned r => balanced r | Raised _ => True end.
Proof.
  intros st out [r | e] out' Hst Hrun; [| exact I].
  eapply (counting_pass_invariant balanced); [| exact Hst | exact Hrun].
  intros st' e. apply count_plain_balanced.
Qed.

End ScanFacts.

(** * The scan of a directory tree *)

Section NodeInduction.

Variable P : node -> Prop.
Hypothesis PFile : forall nm, P (File nm).
Hypothesis PSpecial : forall nm, P (Special nm).
Hypothesis PLink : forall nm e, P (Link nm e).
Hypothesis PDir :
  forall nm symlink readable children,
    Forall P children -> P (Dir nm symlink readable children).

Lemma node_tree_ind : forall n, P n.
Proof.
  fix IH 1. intros [nm | nm | nm e | nm symlink readable children].
  - apply PFile.
  - apply PSpecial.
  - apply PLink.
  - apply PDir. induction children as [| c children IHc]; constructor.
    + apply IH.
    + apply IHc.
Qed.

End NodeInduction.

Section Resolution.

Lemma child_In x children c :
  child x children = Some c -> In c children /\ node_name c = x.
Proof.
  unfold child. intros H. apply find_some in H as [Hin Heq].
  split; [assumption | now apply String.eqb_eq].
Qed.

Lemma child_found children c :
  NoDup (map node_name children) -> In c children ->
  child (node_name c) children = Some c.
Proof.
  unfold child. induction children as [| a children IH]; simpl; [easy |].
  intros Hnodup Hin. apply NoDup_cons in Hnodup as [Hfresh Hnodup].
  destruct Hin as [-> | Hin]; [now rewrite String.eqb_refl |].
  destruct (String.eqb_spec (node_name a) (node_name c)) as [Heq | _]; [| now apply IH].
  exfalso. apply Hfresh. rewrite Heq. apply list_elem_of_In. now apply in_map.
Qed.

Lemma resolve_app n p q :
  resolve n (p ++ q)
  = match resolve n p with Ok m => resolve m q | Raise e => Raise e end.
Proof.
  revert n. induction p as [| x p IH]; simpl; intros n; [reflexivity |].
  destruct n as [| | | nm symlink [] children]; try reflexivity.
  destruct (child x children); [apply IH | reflexivity].
Qed.

Lemma distinct_names_Dir nm symlink readable children :
  distinct_names (Dir nm symlink readable children) = true ->
  NoDup (map node_name children)
  /\ forall c, In c children -> distinct_names c = true.
Proof.
  simpl. intros H. apply andb_true_iff in H as [Hnodup Hall]. split.
  - now apply bool_decide_eq_true in Hnodup.
  - now apply forallb_forall.
Qed.

Lemma distinct_names_resolve p : forall n m,
  distinct_names n = true -> resolve n p = Ok m -> distinct_names m = true.
Proof.
  induction p as [| x p IH]; simpl; intros n m Hn Hres.
  - now injection Hres as <-.
  - destruct n as [| | | nm symlink [] children]; try discriminate.
    destruct (child x children) as [c |] eqn:Hchild; [| discriminate].
    apply (IH c); [| assumption].
    apply distinct_names_Dir in Hn as [_ Hall].
    apply Hall. now apply child_In in Hchild.
Qed.

(** A directory the walk yields lists, at its path, as the tree has it. *)
Lemma scandir_listed root n : forall p,
  resolve root p = Ok n -> distinct_names n = true ->
  Forall (fun x => scandir root (fst x) = Ok (map entry_of (snd x)))
         (listed_from p n).
Proof.
  induction n as [nm | nm | nm e | nm symlink readable children IH] using node_tree_ind;
    intros p Hres Hnames; simpl; try constructor.
  destruct readable; constructor.
  - simpl. unfold scandir. now rewrite Hres.
  - apply distinct_names_Dir in Hnames as [Hnodup Hall].
    apply List.Forall_forall. intros x Hx.
    apply in_flat_map in Hx as (c & Hc & Hx).
    rewrite List.Forall_forall in IH. specialize (IH c Hc).
    destruct c as [| | | nm' [] readable' children']; try destruct Hx.
    assert (Hsub : resolve root (p ++ [nm'])
                   = Ok (Dir nm' false readable' children')).
    { rewrite resolve_app, Hres. simpl.
      change nm' with (node_name (Dir nm' false readable' children')) at 1.
      now rewrite child_found. }
    specialize (IH (p ++ [nm']) Hsub (Hall _ Hc)).
    rewrite List.Forall_forall in IH. now apply IH.
Qed.

Lemma walk_from_roots n : forall top,
  map (fun '(root, dirs, files) => root) (walk_from top n)
  = map fst (listed_from top n).
Proof.
  induction n as [nm | nm | nm e | nm symlink readable children IH] using node_tree_ind;
    intros top; simpl; try reflexivity.
  destruct readable; simpl; [| reflexivity]. f_equal.
  induction IH as [| c children Hc _ IHchildren]; simpl; [reflexivity |].
  rewrite !map_app, IHchildren. f_equal.
  destruct c as [| | | nm' [] readable' children']; try reflexivity. apply Hc.
Qed.

Lemma visible_listed n : forall top,
  flat_map (fun x => map entry_of (snd x)) (listed_from top n) = visible_entries n.
Proof.
  induction n as [nm | nm | nm e | nm symlink readable children IH] using node_tree_ind;
    intros top; simpl; try reflexivity.
  destruct readable; simpl; [| reflexivity]. f_equal.
  induction IH as [| c children Hc _ IHchildren]; simpl; [reflexivity |].
  rewrite flat_map_app, IHchildren. f_equal.
  destruct c as [| | | nm' [] readable' children']; try reflexivity. apply Hc.
Qed.

(** A path whose listing fails is one the walk yields nothing for. *)
Lemma walk_unlisted root p e : scandir root p = Raise e -> walk root p = [].
Proof.
  unfold scandir, walk. destruct (resolve root p) as [n | e']; [| reflexivity].
  destruct n as [| | | nm symlink [] children]; simpl; try reflexivity.
  discriminate.
Qed.

End Resolution.

Section TreeScan.

Variable os : os_name.
Variable fs : filesystem.
Variable denied : path -> bool.

(** What ends the work on the directories the walk found, and what gets
    counted of them, read off the tree. *)
Lemma visit_listed root p n :
  Forall (fun x => scandir root (fst x) = Ok (map entry_of (snd x)))
         (listed_from p n) ->
  Forall (fun x =>
            visit_error (revoke denied (scandir root)) (fst x)
            = (if denied (fst x) then Some PermissionError
               else first_raise (map entry_of (snd x)))
            /\ visit_entries (revoke denied (scandir root)) (fst x)
               = (if denied (fst x) then [] else counted (map entry_of (snd x))))
         (listed_from p n).
Proof.
  apply List.Forall_impl. intros x Hx.
  unfold visit_error, visit_entries, revoke.
  destruct (denied (fst x)); [now split |]. now rewrite Hx.
Qed.

(** The scan of a path that leads to a node is the counting pass over the
    directories the walk finds below it. *)
Lemma scan_listed p n :
  resolve (tree fs) p = Ok n ->
  let dirs := map fst (listed_from p n) in
  length (walk (tree fs) p) = length dirs
  /\ count_files_with_details os (walk (tree fs)) (revoke denied (scandir (tree fs))) p
     = counting_pass os (revoke denied (scandir (tree fs))) (length dirs)
                     (enumerate 1 dirs) initial []
  /\ Forall (fun x =>
               visit_error (revoke denied (scandir (tree fs))) (fst x)
               = (if denied (fst x) then Some PermissionError
                  else first_raise (map entry_of (snd x)))
               /\ visit_entries (revoke denied (scandir (tree fs))) (fst x)
                  = (if denied (fst x) then [] else counted (map entry_of (snd x))))
            (listed_from p n).
Proof.
  intros Hres dirs. subst dirs. split; [| split].
  - unfold walk. rewrite Hres.
    now rewrite <- walk_from_roots, !length_map.
  - unfold count_files_with_details, walk. rewrite Hres, walk_from_roots. reflexivity.
  - apply visit_listed, scandir_listed; [exact Hres |].
    exact (distinct_names_resolve p _ _ (tree_names fs) Hres).
Qed.

(** When the work on no directory ends with another error than
    [PermissionError], the scan returns, with the entries seen counted and
    the bar drawn once for each directory. *)
Lemma scan_passable p n :
  resolve (tree fs) p = Ok n ->
  passable denied p n = true ->
  let total_dirs := length (walk (tree fs) p) in
  count_files_with_details os (walk (tree fs)) (revoke denied (scandir (tree fs))) p
  = (Returned (tally os initial (seen_entries denied p n)),
     progress_calls 1 total_dirs total_dirs).
Proof.
  intros Hres Hpass total_dirs.
  destruct (scan_listed p n Hres) as (Hlen & -> & Hvisit).
  subst total_dirs. rewrite Hlen. clear Hlen.
  unfold passable in Hpass. rewrite forallb_forall in Hpass.
  assert (Hseen : flat_map (visit_entries (revoke denied (scandir (tree fs))))
                           (map fst (listed_from p n))
                  = seen_entries denied p n).
  { unfold seen_entries. clear Hpass.
    induction Hvisit as [| x l [_ Hx] _ IH]; simpl; [reflexivity |].
    now rewrite Hx, IH. }
  rewrite counting_pass_returns.
  - now rewrite Hseen, length_map.
  - clear Hseen. induction Hvisit as [| x l [Hx _] _ IH]; simpl; constructor.
    + unfold passes. rewrite Hx. specialize (Hpass x (or_introl eq_refl)).
      destruct (denied (fst x)); [reflexivity | exact Hpass].
    + apply IH. intros y Hy. apply Hpass. now right.
Qed.

Lemma revoke_nothing (os_scandir : path -> result (list DirEntry)) :
  (forall q, denied q = false) -> forall q, revoke denied os_scandir q = os_scandir q.
Proof. intros Hnone q. unfold revoke. now rewrite Hnone. Qed.

End TreeScan.

Section TreeScanStill.

Variable os : os_name.
Variable fs : filesystem.

Lemma revoke_none (os_scandir : path -> result (list DirEntry)) q :
  revoke (fun _ => false) os_scandir q = os_scandir q.
Proof. reflexivity. Qed.

(** The scan of a path whose listing fails returns zeros and draws
    nothing. *)
Lemma scan_unlisted p e :
  scandir (tree fs) p = Raise e -> scan os fs p = (Returned initial, []).
Proof.
  intros Herr. unfold scan, count_files_with_details.
  now rewrite (walk_unlisted _ _ _ Herr).
Qed.

(** On a tree that does not change between the passes. *)
Lemma scan_still p n :
  resolve (tree fs) p = Ok n ->
  passable (fun _ => false) p n = true ->
  let total_dirs := length (walk (tree fs) p) in
  scan os fs p
  = (Returned (tally os initial (seen_entries (fun _ => false) p n)),
     progress_calls 1 total_dirs total_dirs).
Proof. intros Hres Hpass. exact (scan_passable os fs (fun _ => false) p n Hres Hpass). Qed.

End TreeScanStill.

(** * The scan: roots that cannot be listed *)

(** C1, as the code has it: scanning a path that does not exist returns, as
    a success, zero files, zero folders and no category, and the progress
    bar is never drawn; [os.walk] keeps the [FileNotFoundError] of its first
    listing to itself and yields nothing. *)
Theorem scan_missing_root (os : os_name) (fs : filesystem) (p : path) :
  scandir (tree fs) p = Raise FileNotFoundError ->
  walk (tree fs) p = []
  /\ scan os fs p
     = (Returned {| total_files := 0; folder_count := 0; category_counts := ∅ |}, []).
Proof.
  intros Herr. split.
  - exact (walk_unlisted _ _ _ Herr).
  - exact (scan_unlisted os fs p _ Herr).
Qed.

Lemma scan_missing_root_witness :
  scan posix photos ["missing"; "dir"]
  = (Returned {| total_files := 0; folder_count := 0; category_counts := ∅ |}, []).
Proof. apply (scan_missing_root posix photos ["missing"; "dir"]). reflexivity. Defined.

(** C1 does not hold as stated: there is a path that does not exist whose
    scan does not fail with [FileNotFoundError]; it returns the zero
    result. *)
Lemma scan_missing_root_counterexample :
  ~ (forall os fs p, scandir (tree fs) p = Raise FileNotFoundError ->
                     fst (scan os fs p) = Raised FileNotFoundError).
Proof.
  intros Hclaim. specialize (Hclaim nt photos ["missing"] eq_refl).
  vm_compute in Hclaim. discriminate Hclaim.
Qed.

(** C2, as the code has it: scanning a directory that exists and cannot be
    listed returns, as a success, zero files, zero folders and no category,
    and the progress bar is never drawn; [os.walk] keeps the
    [PermissionError] of its first listing to itself and yields nothing. *)
Theorem scan_denied_root (os : os_name) (fs : filesystem) (p : path)
        (nm : string) (symlink : bool) (children : list node) :
  resolve (tree fs) p = Ok (Dir nm symlink false children) ->
  scandir (tree fs) p = Raise PermissionError
  /\ walk (tree fs) p = []
  /\ scan os fs p
     = (Returned {| total_files := 0; folder_count := 0; category_counts := ∅ |}, []).
Proof.
  intros Hres.
  assert (Herr : scandir (tree fs) p = Raise PermissionError)
    by (unfold scandir; now rewrite Hres).
  repeat split.
  - exact Herr.
  - exact (walk_unlisted _ _ _ Herr).
  - exact (scan_unlisted os fs p _ Herr).
Qed.

Lemma scan_denied_root_witness :
  scan nt locked_sub ["locked"]
  = (Returned {| total_files := 0; folder_count := 0; category_counts := ∅ |}, []).
Proof.
  apply (scan_denied_root nt locked_sub ["locked"] "locked" false
           [File "c.png"; Dir "deep" false true []]).
  reflexivity.
Defined.

(** C2 does not hold as stated: there is a root that exists and cannot be
    listed whose scan does not fail with [PermissionError]. *)
Lemma scan_denied_root_counterexample :
  ~ (forall os fs p nm symlink children,
        resolve (tree fs) p = Ok (Dir nm symlink false children) ->
        fst (scan os fs p) = Raised PermissionError).
Proof.
  intros Hclaim.
  specialize (Hclaim nt locked_root [] "" false [File "secret.txt"] eq_refl).
  vm_compute in Hclaim. discriminate Hclaim.
Qed.

(** * The scan: the counters *)

(** C3: whatever [os.walk] yields and [os.scandir] lists or raises, a scan
    that returns has the values of [category_counts] add up to
    [total_files]. *)
Theorem category_counts_sum (os : os_name)
        (os_walk : path -> list (path * list string * list string))
        (os_scandir : path -> result (list DirEntry))
        (p : path) (r : ScanResult) (out : console) :
  count_files_with_details os os_walk os_scandir p = (Returned r, out) ->
  sum_values (category_counts r) = total_files r.
Proof.
  unfold count_files_with_details. intros Hrun.
  apply (counting_pass_balanced os os_scandir _ _ _ _ _ _) with (1 := eq_refl
    : balanced initial) in Hrun.
  exact Hrun.
Qed.

Lemma category_counts_sum_witness :
  sum_values (category_counts locked_sub_result) = total_files locked_sub_result.
Proof.
  apply (category_counts_sum nt (walk (tree locked_sub)) (scandir (tree locked_sub)) []
           locked_sub_result [(1, 2); (2, 2)]).
  vm_compute. reflexivity.
Defined.

(** C8: a root that holds exactly the files [a.jpg], [b.mp3], [c.xyz] and
    the empty folder [sub], listed in any order, scans to 3 files, 1 folder
    and one file in each of ["Images"], ["Audio"] and ["Other"]; a root with
    no entry scans to 0 files, 0 folders and no category. *)
Theorem scan_examples (os : os_name) (fs fs' : filesystem) (nm nm' : string)
        (symlink symlink' : bool) (entries : list node) :
  tree fs = Dir nm symlink true entries ->
  entries ≡ₚ [File "a.jpg"; File "b.mp3"; File "c.xyz"; Dir "sub" false true []] ->
  tree fs' = Dir nm' symlink' true [] ->
  scan os fs []
  = (Returned {| total_files := 3; folder_count := 1;
                 category_counts := {[ "Images" := 1; "Audio" := 1; "Other" := 1 ]} |},
     [(1, 2); (2, 2)])
  /\ scan os fs' []
     = (Returned {| total_files := 0; folder_count := 0; category_counts := ∅ |},
        [(1, 1)]).
Proof.
  intros Htree Hperm Htree'. unfold scan. rewrite Htree, Htree'.
  split; [| now destruct os].
  symmetry in Hperm. apply permutations_Permutation in Hperm. simpl in Hperm.
  repeat (apply elem_of_cons in Hperm as [-> | Hperm];
          [destruct os; vm_compute; reflexivity |]).
  now apply elem_of_nil in Hperm.
Qed.

Lemma scan_examples_witness :
  scan nt photos []
  = (Returned {| total_files := 3; folder_count := 1;
                 category_counts := {[ "Images" := 1; "Audio" := 1; "Other" := 1 ]} |},
     [(1, 2); (2, 2)])
  /\ scan nt empty_root []
     = (Returned {| total_files := 0; folder_count := 0; category_counts := ∅ |},
        [(1, 1)]).
Proof.
  apply (scan_examples nt photos empty_root "" "" false false
           [File "a.jpg"; File "b.mp3"; File "c.xyz"; Dir "sub" false true []]);
    reflexivity.
Defined.

(** * The scan: progress *)

Section Progress.





(** The bar is full at the last call. *)
Lemma progress_bar_filled_full total bar_length :
  0 < total -> progress_bar_filled total total bar_length = bar_length.
Proof.
  intros Hpos. unfold progress_bar_filled.
  destruct (Nat.ltb_spec 0 total) as [_ | Hle]; [| lia].
  apply Nat.div_mul. lia.
Qed.

End Progress.




(** * The scan: directories that cannot be listed *)

Section Denied.

Lemma counts_as_folder_only l :
  List.filter (fun e => negb (counts_as_file e) && counts_as_folder e) l
  = List.filter counts_as_folder l.
Proof.
  apply filter_ext. intros e. unfold counts_as_file, counts_as_folder.
  destruct (is_file e) as [[] | ]; reflexivity.
Qed.

(** Where no entry is a [Link], every entry of a listing is counted. *)
Lemma counted_answering children :
  forallb answering children = true ->
  counted (map entry_of children) = map entry_of children
  /\ first_raise (map entry_of children) = None.
Proof.
  induction children as [| c children IH]; simpl; [now split |].
  intros H. apply andb_true_iff in H as [Hc Hrest].
  destruct (IH Hrest) as [Hcounted Hfirst].
  destruct c as [nm | nm | nm e | nm symlink readable grandchildren];
    try discriminate; unfold raises; simpl;
    rewrite ?Hcounted, ?Hfirst; now split.
Qed.

Lemma answering_listed n : forall top,
  answering n = true ->
  Forall (fun x => forallb answering (snd x) = true) (listed_from top n).
Proof.
  induction n as [nm | nm | nm e | nm symlink readable children IH] using node_tree_ind;
    intros top Hn; simpl; try constructor.
  destruct readable; constructor; [exact Hn |].
  simpl in Hn. rewrite forallb_forall in Hn.
  apply List.Forall_forall. intros x Hx.
  apply in_flat_map in Hx as (c & Hc & Hx).
  rewrite List.Forall_forall in IH. specialize (IH c Hc).
  destruct c as [| | | nm' [] readable' children']; try destruct Hx.
  specialize (IH (top ++ [nm']) (Hn _ Hc)).
  rewrite List.Forall_forall in IH. now apply IH.
Qed.

(** On a tree without a [Link] that does not change, the scan sees all the
    entries of the directories the walk finds, and nothing stops it. *)
Lemma answering_seen n top :
  answering n = true ->
  seen_entries (fun _ => false) top n = visible_entries n
  /\ passable (fun _ => false) top n = true.
Proof.
  intros Hn. pose proof (answering_listed n top Hn) as Hall.
  rewrite <- (visible_listed n top). unfold seen_entries, passable.
  induction Hall as [| x l Hx _ [IHseen IHpass]]; [now split |].
  cbn [flat_map forallb]. destruct (counted_answering _ Hx) as [-> ->].
  rewrite IHseen, IHpass. now split.
Qed.

End Denied.

(** C7, as the code has it: take a tree whose root lists.  Some of its
    directories may refuse to be listed already when the tree is walked,
    the directories in [denied] refuse by the time they are counted, and
    the tests of an entry may raise.  As long as, in each directory the
    walk found, no test raises another error than [PermissionError] before
    one raises that, the scan returns and has drawn the bar for every
    directory the walk found.  Its counters are those of the entries seen:
    of each directory the walk found and that still lists, the entries
    before the first one whose tests raise [PermissionError], all of them
    when none does; a directory that refuses adds nothing.  [total_files]
    is the number of file entries seen, [folder_count] the number of
    directory entries, and each category has the number of files
    [categorize_file] puts in it.  The walk reaches a directory through
    directories that list, and not through a link. *)
Theorem scan_skips_denied (os : os_name) (fs : filesystem) (denied : path -> bool)
        (p : path) (nm : string) (symlink : bool) (children : list node) :
  resolve (tree fs) p = Ok (Dir nm symlink true children) ->
  let root := Dir nm symlink true children in
  passable denied p root = true ->
  let seen := seen_entries denied p root in
  let total_dirs := length (walk (tree fs) p) in
  exists r,
    count_files_with_details os (walk (tree fs))
                             (revoke denied (scandir (tree fs))) p
    = (Returned r, progress_calls 1 total_dirs total_dirs)
    /\ r = tally os initial seen
    /\ total_files r = length (List.filter counts_as_file seen)
    /\ folder_count r = length (List.filter counts_as_folder seen)
    /\ (forall category,
          default 0 (category_counts r !! category)
          = length (List.filter
                      (fun e => counts_as_file e
                                && String.eqb (categorize_file os (name e)) category)
                      seen))
    /\ ((forall q, denied q = false) ->
        scan os fs p = (Returned r, progress_calls 1 total_dirs total_dirs)
        /\ (answering root = true -> seen = visible_entries root)).
Proof.
  intros Hres. cbv zeta.
  set (root := Dir nm symlink true children) in *.
  intros Hpass.
  set (seen := seen_entries denied p root).
  set (total_dirs := length (walk (tree fs) p)).
  pose proof (scan_passable os fs denied p root Hres Hpass) as Hrun.
  cbv zeta in Hrun. fold seen total_dirs in Hrun.
  exists (tally os initial seen).
  destruct (tally_counts os seen initial) as (Hf & Hd & Hc).
  split; [exact Hrun |]. split; [reflexivity |].
  split; [exact Hf |].
  split; [rewrite Hd; now rewrite counts_as_folder_only |].
  split; [intros category; now rewrite Hc |].
  intros Hnone.
  assert (Hsame : seen = seen_entries (fun _ => false) p root
                  /\ passable (fun _ => false) p root = true).
  { subst seen. unfold seen_entries, passable in *.
    rewrite forallb_forall in Hpass. split.
    - apply flat_map_ext. intros x. now rewrite Hnone.
    - apply forallb_forall. intros x Hx. specialize (Hpass x Hx).
      now rewrite Hnone in Hpass. }
  destruct Hsame as [Hseen Hstill]. split.
  - rewrite Hseen. exact (scan_still os fs p root Hres Hstill).
  - intros Hans. rewrite Hseen. now apply answering_seen.
Qed.

Lemma scan_skips_denied_witness :
  exists r,
    scan nt half_way [] = (Returned r, [(1, 1)])
    /\ total_files r = 1 /\ folder_count r = 0.
Proof.
  destruct (scan_skips_denied nt half_way (fun _ => false) [] "" false
              [File "a.txt";
               Link "into" PermissionError;
               File "b.txt";
               Dir "locked" false false [File "target"]] eq_refl eq_refl)
    as (r & _ & _ & Hf & Hd & _ & Hscan).
  exists r. destruct (Hscan (fun _ => eq_refl)) as [Hrun _].
  split; [exact Hrun |]. split; [exact Hf | exact Hd].
Defined.

(** C7 does not hold as stated.  The root of [half_way] lists and its
    sub-directory [locked] does not; the scan returns, but with one file
    and no folder, where the root holds two files and one folder: the link
    into [locked] ended the count of the root.  The root of [looped] lists
    and its sub-directory [locked] does not; the scan does not return. *)
Lemma scan_skips_denied_counterexample :
  ~ (forall os fs p nm symlink children,
        resolve (tree fs) p = Ok (Dir nm symlink true children) ->
        (exists nm' symlink' children',
            In (Dir nm' symlink' false children') children) ->
        exists r,
          fst (scan os fs p) = Returned r
          /\ total_files r
             = length (List.filter node_is_file
                         (flat_map snd (listed_from p (Dir nm symlink true children))))
          /\ folder_count r
             = length (List.filter node_is_dir
                         (flat_map snd (listed_from p (Dir nm symlink true children)))))
  /\ ~ (forall os fs p nm symlink children,
           resolve (tree fs) p = Ok (Dir nm symlink true children) ->
           (exists nm' symlink' children',
               In (Dir nm' symlink' false children') children) ->
           exists r, fst (scan os fs p) = Returned r).
Proof.
  split; intros Hclaim.
  - destruct (Hclaim nt half_way [] _ _ _ eq_refl) as (r & Hr & Hfiles & _).
    + exists "locked", false, [File "target"]. simpl. tauto.
    + vm_compute in Hr. injection Hr as <-. vm_compute in Hfiles. discriminate Hfiles.
  - destruct (Hclaim nt looped [] _ _ _ eq_refl) as (r & Hr).
    + exists "locked", false, [File "c.txt"]. simpl. tauto.
    + vm_compute in Hr. discriminate Hr.
Qed.

(** Directories that lose their permission between the two passes are
    passed over by the counting pass, and the bar is drawn for them all the
    same. *)
Example revoked_between_passes :
  exists r,
    count_files_with_details nt (walk (tree locked_sub))
      (revoke (fun q => bool_decide (q = ["open"])) (scandir (tree locked_sub))) []
    = (Returned r, [(1, 2); (2, 2)])
    /\ total_files r = 2 /\ folder_count r = 2.
Proof. eexists. vm_compute. repeat split. Qed.

(** * The scan: folders *)

Section Folders.

(** In a tree that lists everywhere and has no link to a directory, the
    walk yields one directory for the root and one for each directory
    entry it sees. *)
Lemma listed_from_length n : forall top,
  accessible n = true -> no_links_below n = true ->
  length (listed_from top n)
  = (if node_is_dir n then 1 else 0)
    + length (List.filter counts_as_folder (visible_entries n)).
Proof.
  induction n as [nm | nm | nm e | nm symlink readable children IH] using node_tree_ind;
    intros top Hacc Hlinks; simpl; try reflexivity.
  simpl in Hacc, Hlinks. apply andb_true_iff in Hacc as [-> Hacc].
  simpl. f_equal. rewrite List.filter_app, length_app.
  revert Hacc Hlinks.
  induction IH as [| c children Hc _ IHchildren]; simpl; intros Hacc Hlinks;
    [reflexivity |].
  apply andb_true_iff in Hacc as [Hc_acc Hacc].
  apply andb_true_iff in Hlinks as [Hc_links Hlinks].
  apply andb_true_iff in Hc_links as [Hc_link Hc_links].
  rewrite List.filter_app, !length_app, (IHchildren Hacc Hlinks).
  destruct c as [| | | nm' symlink' readable' children']; [simpl; lia .. |].
  apply negb_true_iff in Hc_link. subst symlink'. cbv match.
  rewrite (Hc (top ++ [nm']) Hc_acc Hc_links). simpl. lia.
Qed.

End Folders.

(** C10, as the code has it: [folder_count] is the number of directory
    entries seen in the directories that were listed, so the root is not in
    it; and when every directory of the tree lists, none of its entries is
    a link to a directory and the tests of all its entries answer,
    [folder_count] is one less than the number of directories the discovery
    pass found. *)
Theorem folder_count_excludes_root (os : os_name) (fs : filesystem) (p : path)
        (n : node) :
  resolve (tree fs) p = Ok n ->
  node_is_dir n = true ->
  accessible n = true ->
  no_links_below n = true ->
  answering n = true ->
  exists r out,
    scan os fs p = (Returned r, out)
    /\ folder_count r = length (List.filter counts_as_folder (visible_entries n))
    /\ folder_count r + 1 = length (walk (tree fs) p).
Proof.
  intros Hres Hdir Hacc Hlinks Hans.
  destruct (answering_seen n p Hans) as [Hseen Hpass].
  pose proof (scan_still os fs p n Hres Hpass) as Hscan. cbv zeta in Hscan.
  rewrite Hseen in Hscan.
  eexists; eexists. split; [exact Hscan |].
  destruct (tally_counts os (visible_entries n) initial) as (_ & Hd & _).
  assert (Hcount : folder_count (tally os initial (visible_entries n))
                   = length (List.filter counts_as_folder (visible_entries n))).
  { rewrite Hd. simpl. now rewrite counts_as_folder_only. }
  split; [exact Hcount |].
  rewrite Hcount. unfold walk. rewrite Hres.
  rewrite <- (length_map (fun '(root, _, _) => root)), walk_from_roots, length_map.
  rewrite (listed_from_length n p Hacc Hlinks), Hdir. lia.
Qed.

Lemma folder_count_excludes_root_witness :
  exists r out,
    scan nt photos [] = (Returned r, out)
    /\ folder_count r + 1 = 2.
Proof.
  destruct (folder_count_excludes_root nt photos []
              (Dir "" false true
                   [File "a.jpg"; File "b.mp3"; File "c.xyz"; Dir "sub" false true []])
              eq_refl eq_refl eq_refl eq_refl eq_refl)
    as (r & out & Hscan & _ & Hlen).
  exists r, out. split; [exact Hscan | exact Hlen].
Defined.

(** C10 does not hold as stated, for two reasons.  In [linked], a tree
    that lists everywhere, the link to a directory is counted as a folder
    and the discovery pass does not go into it.  In [cut_short], a tree
    that lists everywhere and has no link to a directory, the link whose
    tests raise [PermissionError] ends the count of the root after its
    first folder, while the discovery pass finds all four directories. *)
Lemma folder_count_excludes_root_counterexample :
  ~ (forall os fs p n,
        resolve (tree fs) p = Ok n -> node_is_dir n = true ->
        accessible n = true ->
        exists r, fst (scan os fs p) = Returned r
                  /\ folder_count r = length (walk (tree fs) p) - 1)
  /\ ~ (forall os fs p n,
           resolve (tree fs) p = Ok n -> node_is_dir n = true ->
           accessible n = true -> no_links_below n = true ->
           exists r, fst (scan os fs p) = Returned r
                     /\ folder_count r = length (walk (tree fs) p) - 1).
Proof.
  split; intros Hclaim.
  - destruct (Hclaim nt linked [] _ eq_refl eq_refl eq_refl)
      as (r & Hr & Hcount).
    vm_compute in Hr. injection Hr as <-.
    vm_compute in Hcount. discriminate Hcount.
  - destruct (Hclaim nt cut_short [] _ eq_refl eq_refl eq_refl eq_refl)
      as (r & Hr & Hcount).
    vm_compute in Hr. injection Hr as <-.
    vm_compute in Hcount. discriminate Hcount.
Qed.

(** * The progress bar *)

Section ProgressBar.





End ProgressBar.





(** X3: take a [current] beyond a positive [total], with a quotient small
    enough for the percentage to be computed and for the blocks to be
    counted.  It overflows the bar: the bar is all blocks, at least
    [bar_length] of them, and has no dash. *)
Theorem progress_bar_overflow (current total bar_length : Z) :
  (0 < total < current)%Z -> (0 <= bar_length)%Z ->
  percent_safe current total = true ->
  bar_safe (bar_length * current / total) = true ->
  let filled := (bar_length * current / total)%Z in
  progress_bar current total bar_length = repeat Block (Z.to_nat filled)
  /\ (bar_length <= filled)%Z.
Proof.
  intros Htotal Hlength _ _ filled.
  assert (Hf : (bar_length <= filled)%Z).
  { subst filled. apply Z.div_le_lower_bound; nia. }
  split; [| exact Hf]. unfold progress_bar.
  destruct (Z.gtb_spec total 0) as [_ | Hle]; [| lia]. fold filled.
  unfold times. replace (Z.to_nat (bar_length - filled)) with 0%nat by lia.
  simpl. apply app_nil_r.
Qed.

Lemma progress_bar_overflow_witness :
  progress_bar 5 3 6 = repeat Block 10.
Proof.
  destruct (progress_bar_overflow 5 3 6) as (Hbar & _);
    [lia | lia | reflexivity | reflexivity |].
  exact Hbar.
Defined.



(** * The drives *)

Section Drives.

Lemma append_cons c (s t : string) :
  (String c s ++ t)%string = String c (s ++ t)%string.
Proof. reflexivity. Qed.

Lemma append_nil (t : string) : ("" ++ t)%string = t.
Proof. reflexivity. Qed.

Lemma prefix_app sub s :
  String.prefix sub s = true <-> exists post, s = (sub ++ post)%string.
Proof.
  revert s. induction sub as [| c sub IH]; intros s.
  - split; [intros _; now exists s | intros _; now destruct s].
  - destruct s as [| c' s]; simpl.
    + split; [discriminate | intros [post Hpost]; discriminate].
    + destruct (Ascii.ascii_dec c c') as [-> | Hne].
      * rewrite IH. split; intros [post Hpost]; exists post;
          rewrite append_cons in *; congruence.
      * split; [discriminate |].
        intros [post Hpost]. rewrite append_cons in Hpost. congruence.
Qed.

(** [str_in] is Python's [in]: [sub] occurs somewhere in [s]. *)
Lemma str_in_app sub s :
  str_in sub s = true <-> exists pre post, s = (pre ++ sub ++ post)%string.
Proof.
  induction s as [| c s IH].
  - change (str_in sub "") with (String.prefix sub "" || false).
    rewrite orb_false_r, prefix_app. split.
    + intros [post Hpost]. now exists "", post.
    + intros (pre & post & Heq). destruct pre; [now exists post |]. discriminate.
  - change (str_in sub (String c s))
      with (String.prefix sub (String c s) || str_in sub s).
    rewrite orb_true_iff, prefix_app, IH. split.
    + intros [[post Hpost] | (pre & post & Heq)].
      * now exists "", post.
      * exists (String c pre), post. rewrite append_cons. now rewrite Heq.
    + intros (pre & post & Heq). destruct pre as [| c' pre].
      * left. now exists post.
      * right. exists pre, post. rewrite append_cons in Heq. congruence.
Qed.

End Drives.

(** X5: off Windows [list_drives] finds no drive, whatever the partitions
    are. *)
Theorem list_drives_not_nt (fs : filesystem) (disk_partitions : list partition) :
  list_drives posix fs disk_partitions = [].
Proof.
  unfold list_drives. induction disk_partitions as [| part parts IH]; simpl.
  - reflexivity.
  - exact IH.
Qed.

(** X6: on Windows [list_drives] goes through the partitions one by one,
    in their order: the device of a partition whose options do not have
    [cdrom] anywhere in them and whose device exists is appended to the
    drives, also when the same device came before, and any other partition
    is passed over.  So the drives are devices of the partitions in the
    order of the partitions, and a device is among them exactly when a
    partition qualifies with it. *)
Theorem list_drives_nt (fs : filesystem) :
  let qualifies part :=
    (~ exists pre post, opts part = (pre ++ "cdrom" ++ post)%string)
    /\ os_path_exists fs (drive_path (device part)) = true in
  list_drives nt fs [] = []
  /\ (forall part parts,
        (qualifies part ->
         list_drives nt fs (part :: parts) = device part :: list_drives nt fs parts)
        /\ (~ qualifies part ->
            list_drives nt fs (part :: parts) = list_drives nt fs parts))
  /\ (forall parts,
        sublist (list_drives nt fs parts) (map device parts)
        /\ forall drive,
            In drive (list_drives nt fs parts)
            <-> exists part, In part parts /\ device part = drive /\ qualifies part).
Proof.
  intros qualifies.
  assert (Hq : forall part,
             negb (str_in "cdrom" (opts part))
             && os_path_exists fs (drive_path (device part)) = true
             <-> qualifies part).
  { intros part. unfold qualifies. rewrite andb_true_iff, negb_true_iff.
    rewrite <- str_in_app. destruct (str_in "cdrom" (opts part)); intuition congruence. }
  assert (Hstep : forall part parts,
             (qualifies part ->
              list_drives nt fs (part :: parts)
              = device part :: list_drives nt fs parts)
             /\ (~ qualifies part ->
                 list_drives nt fs (part :: parts) = list_drives nt fs parts)).
  { intros part parts. unfold list_drives. simpl.
    destruct (negb (str_in "cdrom" (opts part))
              && os_path_exists fs (drive_path (device part))) eqn:Hkeep.
    - split; [reflexivity |]. intros Hnot. apply Hq in Hkeep. contradiction.
    - split; [| reflexivity]. intros Hyes. apply Hq in Hyes. congruence. }
  split; [reflexivity |]. split; [exact Hstep |].
  intros parts. split.
  - unfold list_drives.
    induction parts as [| part parts IH]; simpl; [constructor |].
    destruct (negb (str_in "cdrom" (opts part))
              && os_path_exists fs (drive_path (device part)));
      simpl; [now apply sublist_skip | now apply sublist_cons].
  - intros drive. unfold list_drives. rewrite in_map_iff. split.
    + intros (part & Hdev & Hin). apply filter_In in Hin as [Hin Hkeep].
      simpl in Hkeep. exists part. split; [assumption |].
      split; [assumption |]. now apply Hq.
    + intros (part & Hin & Hdev & Hpart). exists part.
      split; [assumption |]. apply filter_In. split; [assumption |]. simpl.
      now apply Hq.
Qed.

Lemma list_drives_nt_witness :
  list_drives nt machine machine_partitions
  = "C:\" :: list_drives nt machine (tl machine_partitions).
Proof.
  destruct (list_drives_nt machine) as (_ & Hstep & _).
  destruct (Hstep {| device := "C:\"; opts := "rw,fixed" |} (tl machine_partitions))
    as [Hkeep _].
  apply Hkeep. split; [| reflexivity].
  intros (pre & post & Heq). simpl in Heq.
  assert (Hin : str_in "cdrom" "rw,fixed" = true)
    by (apply str_in_app; now exists pre, post).
  discriminate Hin.
Defined.

(** * Reading a choice *)

Section Choices.

Lemma isdigit_char_cases c :
  isdigit_char c = true ->
  (exists d, decimal_char c = Some d /\ ~ In c superscripts)
  \/ (decimal_char c = None /\ In c superscripts).
Proof.
  destruct c as [[] [] [] [] [] [] [] []]; vm_compute; try discriminate; intros _;
    first [ left; eexists; split; [reflexivity | intuition discriminate]
          | right; split; [reflexivity | intuition congruence] ].
Qed.

Lemma int_from_digits s : forall acc,
  all_chars isdigit_char s = true ->
  (int_from acc s = None
   <-> exists c, In c (list_ascii_of_string s) /\ In c superscripts).
Proof.
  induction s as [| c s IH]; simpl; intros acc Hall.
  - split; [discriminate | intros (c & [] & _)].
  - apply andb_true_iff in Hall as [Hc Hall].
    destruct (isdigit_char_cases c Hc) as [(d & -> & Hplain) | [-> Hsuper]].
    + rewrite (IH _ Hall). split.
      * intros (c' & Hin & Hs). exists c'. split; [now right | assumption].
      * intros (c' & [<- | Hin] & Hs); [contradiction | now exists c'].
    + split; [intros _; exists c; split; [now left | assumption] | reflexivity].
Qed.

End Choices.

Section Picking.

Lemma pick_Entry choice n i :
  pick choice n = Entry i ->
  i < n /\ isdigit choice = true /\ int choice = Some (N.of_nat (S i)).
Proof.
  unfold pick. destruct (isdigit choice); simpl; [| discriminate].
  destruct (int choice) as [k |]; [| discriminate].
  destruct (N.leb_spec 1 k) as [Hlow |]; simpl.
  - destruct (N.leb_spec k (N.of_nat n)) as [Hhigh |].
    + intros H. injection H as <-. repeat split; [lia | f_equal; lia].
    + destruct (k =? N.of_nat n + 1)%N; discriminate.
  - destruct (k =? N.of_nat n + 1)%N; discriminate.
Qed.

End Picking.

(** X7: when a numbered menu takes a line for one of its [n] entries, the
    index is within the list, so indexing never fails; the line is made of
    digits and is the decimal of the index plus one. *)
Theorem pick_entry_in_range (choice : string) (n i : nat) :
  pick choice n = Entry i ->
  i < n /\ isdigit choice = true /\ int choice = Some (N.of_nat (S i)).
Proof. apply pick_Entry. Qed.

Lemma pick_entry_in_range_witness : 1 < 3 /\ int "02" = Some 2%N.
Proof.
  destruct (pick_entry_in_range "02" 3 1 eq_refl) as (Hlt & _ & Hint).
  split; [exact Hlt | exact Hint].
Defined.

(** X8: a numbered menu fails with [ValueError] on every line that passes
    [isdigit] and has a superscript digit in it: [isdigit] lets the
    superscripts through and [int] does not take them. *)
Theorem pick_invalid (choice : string) (n : nat) (c : ascii) :
  isdigit choice = true ->
  In c (list_ascii_of_string choice) ->
  In c superscripts ->
  pick choice n = Invalid.
Proof.
  intros Hdigit Hin Hsuper. unfold pick. rewrite Hdigit. simpl.
  assert (Hint : int choice = None).
  { destruct choice as [| c' s]; [discriminate |].
    apply (int_from_digits (String c' s) 0%N); [exact Hdigit |]. now exists c. }
  now rewrite Hint.
Qed.

Lemma pick_invalid_witness : pick (String "178" "") 5 = Invalid.
Proof.
  apply (pick_invalid (String "178" "") 5 "178"%char);
    [reflexivity | now left | right; now left].
Defined.

(** * The menus *)

Ltac io_unfold :=
  unfold io_bind, input, print, write, throw, io_ret, out_of_fuel, pause in *.

Section MenuFacts.

Variable os : os_name.
Variable fs : filesystem.
Variable disk_partitions : list partition.
Variable disk_usage : string -> result unit.

Lemma reads_refl t : reads t t [].
Proof. reflexivity. Qed.

Lemma reads_trans t t' t'' c c' :
  reads t t' c -> reads t' t'' c' -> reads t t'' (c ++ c').
Proof. unfold reads. intros -> ->. now rewrite app_assoc. Qed.

Lemma writes_refl t : writes t t [].
Proof. unfold writes. now rewrite app_nil_r. Qed.

Lemma writes_trans t t' t'' a a' :
  writes t t' a -> writes t' t'' a' -> writes t t'' (a ++ a').
Proof. unfold writes. intros H ->. now rewrite H, app_assoc. Qed.

Lemma reads_length t t' c : reads t t' c -> length (stdin t') <= length (stdin t).
Proof. unfold reads. intros ->. rewrite length_app. lia. Qed.

Lemma show_usage_cases drives t :
  show_usage disk_usage drives t = (Return tt, t)
  \/ exists e, e <> PermissionError
               /\ show_usage disk_usage drives t = (Throw (OSErr e), t).
Proof.
  induction drives as [| drive rest IH]; simpl; [now left |].
  destruct (disk_usage drive) as [[] | []]; try exact IH;
    right; eexists; (split; [| reflexivity]); discriminate.
Qed.

Lemma scan_balanced p r :
  fst (scan os fs p) = Returned r -> balanced r.
Proof.
  unfold scan, count_files_with_details. intros Hrun.
  destruct (counting_pass _ _ _ _ _ _) as [o out] eqn:Hpass. simpl in Hrun. subst o.
  exact (counting_pass_balanced os (scandir (tree fs)) _ _ initial _ _ _
           (eq_refl : balanced initial) Hpass).
Qed.

(** The scan of a selected path reads nothing, never runs out of steps, and
    what it reports is true. *)
Lemma count_and_report_run selected t r t' :
  count_and_report os fs selected t = (r, t') ->
  reads t t' []
  /\ r <> OutOfFuel
  /\ exists added,
      writes t t' added
      /\ Forall (reported os fs (fun p => p = selected)) added.
Proof.
  unfold count_and_report.
  destruct (scan os fs selected) as [o out] eqn:Hscan. io_unfold. simpl.
  assert (Hbars : Forall (reported os fs (fun p => p = selected))
                         (map (fun c => Bar (fst c) (snd c)) out)).
  { apply List.Forall_forall. intros e He.
    apply in_map_iff in He as (c & <- & _). exact I. }
  destruct o as [res | e]; intros H; injection H as <- <-.
  - repeat split; [discriminate |]. eexists. split.
    + unfold writes. simpl. rewrite <- app_assoc. reflexivity.
    + apply Forall_app. split; [exact Hbars |]. constructor; [| constructor].
      simpl. repeat split. 
      * now rewrite Hscan.
      * apply (scan_balanced selected). now rewrite Hscan.
  - repeat split; [discriminate |]. eexists. split; [reflexivity | exact Hbars].
Qed.

Lemma pause_run t r t' :
  pause t = (r, t') ->
  r <> OutOfFuel /\ writes t t' []
  /\ ((r = Throw EOFError /\ stdin t = [] /\ t' = t)
      \/ (r = Return tt /\ exists line, reads t t' [line])).
Proof.
  io_unfold. destruct t as [[| line rest] out]; simpl; intros H; injection H as <- <-.
  - repeat split; [discriminate | apply writes_refl | left; repeat split].
  - repeat split; [discriminate | unfold writes; simpl; now rewrite app_nil_r |].
    right. split; [reflexivity |]. now exists line.
Qed.

End MenuFacts.

(** ** The drive menu *)

Section DriveMenu.

Variable os : os_name.
Variable fs : filesystem.
Variable disk_partitions : list partition.
Variable disk_usage : string -> result unit.

Let drives := list_drives os fs disk_partitions.

(** One round of the menu when there are drives and their usage prints. *)
Lemma show_drive_menu_round fuel t :
  drives <> [] ->
  show_usage disk_usage drives t = (Return tt, t) ->
  show_drive_menu os fs disk_partitions disk_usage (S fuel) t
  = match stdin t with
    | [] => (Throw EOFError, t)
    | choice :: rest =>
        let t1 := {| stdin := rest; stdout := stdout t |} in
        match pick choice (length drives) with
        | Again => show_drive_menu os fs disk_partitions disk_usage fuel t1
        | Invalid => (Throw ValueError, t1)
        | Entry i => (Return (Some (nth i drives "")), t1)
        | Last => (Throw (SystemExit 0),
                   {| stdin := rest; stdout := stdout t ++ [Print "Goodbye!"] |})
        end
    end.
Proof.
  intros Hdrives Husage. simpl. fold drives.
  destruct drives as [| d ds] eqn:Hd; [contradiction |].
  unfold io_bind at 1. rewrite Husage. io_unfold.
  destruct (stdin t) as [| choice rest]; [reflexivity |]. simpl.
  destruct (pick choice (S (length ds))); reflexivity.
Qed.

Lemma show_drive_menu_run fuel : forall t r t',
  show_drive_menu os fs disk_partitions disk_usage fuel t = (r, t') ->
  (length (stdin t) < fuel -> r <> OutOfFuel)
  /\ (forall d, r = Return (Some d) ->
        exists skipped choice i,
          stdin t = skipped ++ choice :: stdin t'
          /\ Forall (fun line => pick line (length drives) = Again) skipped
          /\ pick choice (length drives) = Entry i
          /\ nth_error drives i = Some d
          /\ stdout t' = stdout t).
Proof.
  induction fuel as [| fuel IH]; intros t r t' Hrun.
  - injection Hrun as <- <-. split; [lia | discriminate].
  - destruct (list_eq_nil_dec drives) as [Hnone | Hsome].
    + simpl in Hrun. fold drives in Hrun. rewrite Hnone in Hrun.
      io_unfold. injection Hrun as <- <-. split; discriminate.
    + destruct (show_usage_cases disk_usage drives t) as [Hok | (e & _ & Hbad)].
      * rewrite (show_drive_menu_round fuel t Hsome Hok) in Hrun.
        destruct (stdin t) as [| choice rest] eqn:Hin.
        { injection Hrun as <- <-. split; discriminate. }
        simpl in Hrun.
        destruct (pick choice (length drives)) as [| i | |] eqn:Hpick.
        -- apply IH in Hrun as [Hfuel Hsel]. simpl in Hfuel. split.
           ++ simpl. intros Hlen. apply Hfuel. lia.
           ++ intros d Hd.
              destruct (Hsel d Hd) as (skipped & c & i & Hs & Hsk & Hp & Hn & Ho).
              exists (choice :: skipped), c, i. simpl in Hs, Ho.
              repeat split; try assumption; [now rewrite Hs | now constructor].
        -- injection Hrun as <- <-. split; [discriminate |].
           intros d Hd. injection Hd as <-.
           exists [], choice, i. simpl.
           repeat split; try assumption; [constructor |].
           apply pick_Entry in Hpick as [Hlt _].
           now apply nth_error_nth'.
        -- injection Hrun as <- <-. split; discriminate.
        -- injection Hrun as <- <-. split; discriminate.
      * simpl in Hrun. fold drives in Hrun.
        destruct drives as [| d ds] eqn:Hd; [contradiction |].
        unfold io_bind at 1 in Hrun. rewrite Hbad in Hrun.
        injection Hrun as <- <-. split; discriminate.
Qed.

Lemma show_drive_menu_no_drives_eq fuel t :
  drives = [] ->
  show_drive_menu os fs disk_partitions disk_usage (S fuel) t
  = (Return None,
     {| stdin := stdin t; stdout := stdout t ++ [Print "No drives found."] |}).
Proof. intros Hnone. simpl. fold drives. rewrite Hnone. reflexivity. Qed.

End DriveMenu.

(** X9: with no drive to list, the drive menu says so and returns [None]
    without reading a line. *)
Theorem show_drive_menu_no_drives (os : os_name) (fs : filesystem)
        (disk_partitions : list partition) (disk_usage : string -> result unit)
        (fuel : nat) (t : tty) :
  list_drives os fs disk_partitions = [] ->
  show_drive_menu os fs disk_partitions disk_usage (S fuel) t
  = (Return None,
     {| stdin := stdin t; stdout := stdout t ++ [Print "No drives found."] |}).
Proof. apply show_drive_menu_no_drives_eq. Qed.

Lemma show_drive_menu_no_drives_witness :
  show_drive_menu posix machine machine_partitions machine_usage 1 (typed ["1"])
  = (Return None, {| stdin := ["1"]; stdout := [Print "No drives found."] |}).
Proof.
  apply (show_drive_menu_no_drives posix machine machine_partitions machine_usage
           0 (typed ["1"])).
  reflexivity.
Defined.

(** X10: when the drive menu returns a drive, it has passed over the lines
    that are not digits or are out of range, read one line that is the
    number of an entry, returned the drive listed under that number, and
    written nothing that is kept. *)
Theorem show_drive_menu_selects (os : os_name) (fs : filesystem)
        (disk_partitions : list partition) (disk_usage : string -> result unit)
        (fuel : nat) (t t' : tty) (drive : string) :
  let drives := list_drives os fs disk_partitions in
  show_drive_menu os fs disk_partitions disk_usage fuel t
  = (Return (Some drive), t') ->
  exists skipped choice i,
    stdin t = skipped ++ choice :: stdin t'
    /\ Forall (fun line => pick line (length drives) = Again) skipped
    /\ pick choice (length drives) = Entry i
    /\ nth_error drives i = Some drive
    /\ stdout t' = stdout t.
Proof.
  intros drives Hrun.
  apply show_drive_menu_run in Hrun as [_ Hsel]. now apply Hsel.
Qed.

Lemma show_drive_menu_selects_witness :
  exists skipped choice i,
    ["x"; "9"; "02"; "1"] = skipped ++ choice :: ["1"]
    /\ nth_error (list_drives nt machine machine_partitions) i = Some "D:\".
Proof.
  destruct (show_drive_menu_selects nt machine machine_partitions machine_usage
              5 (typed ["x"; "9"; "02"; "1"]) (typed ["1"]) "D:\" eq_refl)
    as (skipped & choice & i & Hs & _ & _ & Hn & _).
  exists skipped, choice, i. split; [exact Hs | exact Hn].
Defined.

(** X11: the drive menu ends within as many rounds as there are lines to
    read, and one more. *)
Theorem show_drive_menu_terminates (os : os_name) (fs : filesystem)
        (disk_partitions : list partition) (disk_usage : string -> result unit)
        (fuel : nat) (t : tty) :
  length (stdin t) < fuel ->
  fst (show_drive_menu os fs disk_partitions disk_usage fuel t) <> OutOfFuel.
Proof.
  intros Hfuel.
  destruct (show_drive_menu os fs disk_partitions disk_usage fuel t) as [r t'] eqn:Hrun.
  apply show_drive_menu_run in Hrun as [Hend _]. now apply Hend.
Qed.

Lemma show_drive_menu_terminates_witness :
  fst (show_drive_menu nt machine machine_partitions machine_usage 3
         (typed ["x"; "y"]))
  <> OutOfFuel.
Proof.
  apply (show_drive_menu_terminates nt machine machine_partitions machine_usage 3
           (typed ["x"; "y"])).
  simpl. lia.
Defined.

(** ** Traces *)

Section Traces.

Variable os : os_name.
Variable fs : filesystem.

Lemma io_bind_inv {A B : Type} (c : io A) (k : A -> io B) t r t' :
  io_bind c k t = (r, t') ->
  (exists a t1, c t = (Return a, t1) /\ k a t1 = (r, t'))
  \/ (exists x, c t = (Throw x, t') /\ r = Throw x)
  \/ (c t = (OutOfFuel, t') /\ r = OutOfFuel).
Proof.
  unfold io_bind. destruct (c t) as [[a | x |] t1]; intros H.
  - left. now exists a, t1.
  - injection H as <- <-. right. left. now exists x.
  - injection H as <- <-. right. right. now split.
Qed.

Lemma traced_refl allowed t : traced os fs allowed t t.
Proof.
  split; [exists []; apply reads_refl | exists []; split; [apply writes_refl | constructor]].
Qed.

Lemma traced_trans allowed t t1 t2 :
  traced os fs allowed t t1 -> traced os fs allowed t1 t2 ->
  traced os fs allowed t t2.
Proof.
  intros [[c Hc] (a & Ha & Hpa)] [[c' Hc'] (a' & Ha' & Hpa')]. split.
  - exists (c ++ c'). eapply reads_trans; eassumption.
  - exists (a ++ a'). split; [eapply writes_trans; eassumption |].
    apply Forall_app. now split.
Qed.

Lemma traced_mono (allowed allowed' : path -> Prop) t t' :
  (forall p, allowed p -> allowed' p) ->
  traced os fs allowed t t' -> traced os fs allowed' t t'.
Proof.
  intros Hsub [Hr (a & Ha & Hpa)]. split; [exact Hr |]. exists a. split; [exact Ha |].
  eapply List.Forall_impl; [| exact Hpa]. intros [line | c n | selected r]; simpl; try easy.
  intros (Hal & Hscan & Hbal). repeat split; auto.
Qed.

Lemma traced_length allowed t t' :
  traced os fs allowed t t' -> length (stdin t') <= length (stdin t).
Proof. intros [[c Hc] _]. eapply reads_length, Hc. Qed.

Lemma traced_input allowed t line t' :
  input t = (Return line, t') ->
  traced os fs allowed t t' /\ length (stdin t') < length (stdin t).
Proof.
  unfold input. destruct t as [[| l rest] out]; simpl; [discriminate |].
  intros H. injection H as <- <-. split; [| simpl; lia]. split.
  - now exists [l].
  - exists []. split; [unfold writes; simpl; now rewrite app_nil_r | constructor].
Qed.

Lemma input_fails t r t' :
  input t = (r, t') -> (forall line, r <> Return line) ->
  r = Throw EOFError /\ t' = t /\ stdin t = [].
Proof.
  unfold input. destruct (stdin t) as [| l rest] eqn:Hin; intros H Hnot.
  - injection H as <- <-. now repeat split.
  - injection H as <- <-. now destruct (Hnot l).
Qed.

Lemma traced_print allowed line t :
  traced os fs allowed t {| stdin := stdin t; stdout := stdout t ++ [Print line] |}.
Proof.
  split; [now exists [] |]. exists [Print line]. split; [reflexivity |].
  constructor; [exact I | constructor].
Qed.

Lemma traced_pause allowed t r t' :
  pause t = (r, t') -> traced os fs allowed t t' /\ r <> OutOfFuel.
Proof.
  intros H. apply pause_run in H as (Hfuel & Hw & [(-> & _ & ->) | (-> & line & Hr)]).
  - split; [apply traced_refl | discriminate].
  - split; [| discriminate]. split; [now exists [line] |].
    exists []. split; [exact Hw | constructor].
Qed.

Lemma traced_count_and_report selected t r t' :
  count_and_report os fs selected t = (r, t') ->
  traced os fs (fun p => p = selected) t t' /\ r <> OutOfFuel
  /\ stdin t' = stdin t.
Proof.
  intros H. apply count_and_report_run in H as (Hr & Hfuel & added & Hw & Hp).
  repeat split; [now exists [] | now exists added | exact Hfuel |].
  now rewrite Hr.
Qed.

End Traces.

(** ** The folder menu *)

Section FolderMenu.

Variable os : os_name.
Variable fs : filesystem.

Lemma subfolders_In base entries : forall folders p,
  subfolders base entries = Ok folders ->
  In p folders ->
  exists entry, In entry entries /\ is_dir entry = Ok true
                /\ p = base ++ [name entry].
Proof.
  induction entries as [| f rest IH]; simpl; intros folders p Hsub Hin.
  - injection Hsub as <-. destruct Hin.
  - destruct (is_dir f) as [b | e] eqn:Hdir; [| discriminate].
    destruct (subfolders base rest) as [found | e]; [| discriminate].
    injection Hsub as <-.
    assert (Hrest : In p found ->
                    exists entry, In entry (f :: rest) /\ is_dir entry = Ok true
                                  /\ p = base ++ [name entry]).
    { intros Hp. destruct (IH found p eq_refl Hp) as (entry & He & Hd & Heq).
      exists entry. split; [now right | now split]. }
    destruct b; [| exact (Hrest Hin)].
    destruct Hin as [<- | Hin]; [| exact (Hrest Hin)].
    exists f. split; [now left | now split].
Qed.

Lemma nth_subfolder base folders i :
  list_subfolders fs base = Ok folders ->
  i < length folders ->
  subfolder_of fs base (nth i folders []).
Proof.
  unfold list_subfolders. intros Hlist Hlt.
  destruct (scandir (tree fs) base) as [entries | e] eqn:Hscan; [| discriminate].
  destruct (subfolders_In base entries folders _ Hlist (nth_In _ [] Hlt))
    as (entry & Hin & Hdir & Heq).
  now exists entries, entry.
Qed.

(** Printing a message and waiting for Enter. *)
Lemma message_pause_run allowed line t r t' :
  (print line ;;; pause) t = (r, t') ->
  traced os fs allowed t t' /\ r <> OutOfFuel.
Proof.
  unfold io_bind at 1, print, write. intros H.
  apply (traced_pause os fs allowed) in H as [Htr Hfuel].
  split; [| exact Hfuel].
  eapply traced_trans; [apply traced_print | exact Htr].
Qed.

Lemma show_folder_menu_run fuel : forall base t r t',
  show_folder_menu os fs fuel base t = (r, t') ->
  traced os fs (subfolder_of fs base) t t'
  /\ (length (stdin t) < fuel -> r <> OutOfFuel).
Proof.
  induction fuel as [| fuel IH]; intros base t r t' Hrun.
  - injection Hrun as <- <-. split; [apply traced_refl | lia].
  - cbn [show_folder_menu] in Hrun.
    destruct (list_subfolders fs base) as [folders | e] eqn:Hlist.
    + destruct folders as [| f0 fs0] eqn:Hfolders.
      * apply (message_pause_run (subfolder_of fs base)) in Hrun as [Htr Hfuel].
        split; [exact Htr | intros _; exact Hfuel].
      * rewrite <- Hfolders in Hrun, Hlist.
        apply io_bind_inv in Hrun
          as [(choice & t1 & Hin & Hrun) | [(x & Hin & ->) | [Hin ->]]].
        -- apply (traced_input os fs (subfolder_of fs base)) in Hin as [Htr1 Hlen1].
           destruct (pick choice (length folders)) as [| i | |] eqn:Hpick.
           ++ apply IH in Hrun as [Htr Hfuel]. split.
              ** eapply traced_trans; eassumption.
              ** intros Hlen. apply Hfuel. lia.
           ++ apply pick_Entry in Hpick as [Hlt _].
              pose proof (nth_subfolder base folders i Hlist Hlt) as Hsub.
              apply io_bind_inv in Hrun
                as [([] & t2 & Hcount & Hrun) | [(x & Hcount & ->) | [Hcount ->]]].
              ** apply traced_count_and_report in Hcount as (Htr2 & _ & Hsame).
                 assert (Htr12 : traced os fs (subfolder_of fs base) t t2).
                 { eapply traced_trans; [exact Htr1 |].
                   eapply traced_mono; [| exact Htr2]. now intros p ->. }
                 apply io_bind_inv in Hrun
                   as [([] & t3 & Hpause & Hrun) | [(x & Hpause & ->) | [Hpause ->]]].
                 --- apply (traced_pause os fs (subfolder_of fs base)) in Hpause
                       as [Htr3 _].
                     apply IH in Hrun as [Htr Hfuel]. split.
                     +++ eapply traced_trans; [exact Htr12 |].
                         eapply traced_trans; eassumption.
                     +++ intros Hlen. apply Hfuel.
                         apply traced_length in Htr3.
                         apply (f_equal (@length string)) in Hsame. lia.
                 --- apply (traced_pause os fs (subfolder_of fs base)) in Hpause
                       as [Htr3 _].
                     split; [eapply traced_trans; eassumption | discriminate].
                 --- apply (traced_pause os fs (subfolder_of fs base)) in Hpause
                       as [_ Hfuel]. now destruct Hfuel.
              ** apply traced_count_and_report in Hcount as (Htr2 & _ & _).
                 split; [| discriminate]. eapply traced_trans; [exact Htr1 |].
                 eapply traced_mono; [| exact Htr2]. now intros p ->.
              ** apply traced_count_and_report in Hcount as (_ & Hfuel & _).
                 now destruct Hfuel.
           ++ injection Hrun as <- <-. split; [exact Htr1 | discriminate].
           ++ injection Hrun as <- <-. split; [exact Htr1 | discriminate].
        -- apply input_fails in Hin as (_ & -> & _); [| discriminate].
           split; [apply traced_refl | discriminate].
        -- apply input_fails in Hin as (Hno & _); discriminate.
    + destruct e;
        try (injection Hrun as <- <-; split; [apply traced_refl | discriminate]).
      apply (message_pause_run (subfolder_of fs base)) in Hrun as [Htr Hfuel].
      split; [exact Htr | intros _; exact Hfuel].
Qed.

(** The folder menu never ends the program. *)
Lemma show_folder_menu_no_exit fuel : forall base t t' code,
  show_folder_menu os fs fuel base t <> (Throw (SystemExit code), t').
Proof.
  induction fuel as [| fuel IH]; intros base t t' code Hm; [discriminate |].
  cbn [show_folder_menu] in Hm.
  destruct (list_subfolders fs base) as [folders | []]; try discriminate.
  - destruct folders as [| f0 fs0] eqn:Hf.
    + unfold io_bind at 1, print, write in Hm.
      apply pause_run in Hm as (_ & _ & [(Hx & _) | (Hx & _)]); discriminate.
    + rewrite <- Hf in Hm.
      apply io_bind_inv in Hm
        as [(choice & t2 & Hin & Hm) | [(x & Hin & Hx) | [Hin Hx]]];
        [| apply input_fails in Hin as (Hy & _); [| discriminate]; congruence
         | discriminate].
      destruct (pick choice (length folders));
        [now apply IH in Hm | | discriminate | discriminate].
      apply io_bind_inv in Hm
        as [([] & t3 & Hcount & Hm) | [(x & Hcount & Hx) | [Hcount Hx]]];
        [| | discriminate].
      * apply io_bind_inv in Hm
          as [([] & t4 & Hpause & Hm) | [(x & Hpause & Hx) | [Hpause Hx]]];
          [now apply IH in Hm | | discriminate].
        apply pause_run in Hpause as (_ & _ & [(Hy & _) | (Hy & _)]); congruence.
      * unfold count_and_report in Hcount.
        destruct (scan os fs _) as [[res | e] out]; io_unfold;
          simpl in Hcount; injection Hcount as Hy _; congruence.
  - unfold io_bind at 1, print, write in Hm.
    apply pause_run in Hm as (_ & _ & [(Hx & _) | (Hx & _)]); discriminate.
Qed.

End FolderMenu.

(** X12: on a folder that refuses to be listed the folder menu says so,
    waits for one line and returns, having scanned nothing; with no line
    left to read it fails with [EOFError]. *)
Theorem show_folder_menu_denied (os : os_name) (fs : filesystem) (fuel : nat)
        (base_path : path) (t : tty) :
  scandir (tree fs) base_path = Raise PermissionError ->
  let out := stdout t ++ [Print "Access denied to this folder."] in
  show_folder_menu os fs (S fuel) base_path t
  = match stdin t with
    | [] => (Throw EOFError, {| stdin := []; stdout := out |})
    | _ :: rest => (Return tt, {| stdin := rest; stdout := out |})
    end.
Proof.
  intros Hscan out. cbn [show_folder_menu]. unfold list_subfolders.
  rewrite Hscan. io_unfold. simpl. destruct (stdin t); reflexivity.
Qed.

Lemma show_folder_menu_denied_witness :
  show_folder_menu nt machine 1 ["D:\"] (typed [""; "2"])
  = (Return tt,
     {| stdin := ["2"]; stdout := [Print "Access denied to this folder."] |}).
Proof.
  apply (show_folder_menu_denied nt machine 0 ["D:\"] (typed [""; "2"])).
  reflexivity.
Defined.

(** X13: when the listing of a folder, or the test of one of its entries
    for a directory, fails with another error than [PermissionError], a
    missing folder for one, the folder menu fails with that error: it has
    read no line, and of what is kept of the output it has written
    nothing, the heading, which comes before the listing, not being
    kept. *)
Theorem show_folder_menu_unlisted (os : os_name) (fs : filesystem) (fuel : nat)
        (base_path : path) (t : tty) (e : OSError) :
  list_subfolders fs base_path = Raise e ->
  e <> PermissionError ->
  show_folder_menu os fs (S fuel) base_path t = (Throw (OSErr e), t).
Proof.
  intros Hlist He. cbn [show_folder_menu]. rewrite Hlist.
  destruct e; [contradiction | | |]; reflexivity.
Qed.

Lemma show_folder_menu_unlisted_witness :
  show_folder_menu nt machine 1 ["Q:\"] (typed ["1"])
  = (Throw (OSErr FileNotFoundError), typed ["1"]).
Proof.
  apply (show_folder_menu_unlisted nt machine 0 ["Q:\"] (typed ["1"])
           FileNotFoundError).
  - reflexivity.
  - discriminate.
Defined.

(** X14: whatever is typed, the folder menu only reads lines from the
    front of the input and only adds to the output, and every result it
    prints is for a sub-directory it listed for the folder, with the
    figures the scan of that sub-directory returns, the category counts
    adding up to the number of files. *)
Theorem show_folder_menu_reports (os : os_name) (fs : filesystem) (fuel : nat)
        (base_path : path) (t : tty) :
  let t' := snd (show_folder_menu os fs fuel base_path t) in
  (exists consumed, stdin t = consumed ++ stdin t')
  /\ exists added,
      stdout t' = stdout t ++ added
      /\ forall selected r,
          In (Results selected r) added ->
          subfolder_of fs base_path selected
          /\ fst (scan os fs selected) = Returned r
          /\ sum_values (category_counts r) = total_files r.
Proof.
  intros t'. subst t'.
  destruct (show_folder_menu os fs fuel base_path t) as [r t'] eqn:Hrun.
  apply show_folder_menu_run in Hrun as [[Hreads (added & Hw & Hrep)] _].
  split; [exact Hreads |]. exists added. split; [exact Hw |].
  intros selected res Hin. rewrite List.Forall_forall in Hrep.
  exact (Hrep _ Hin).
Qed.

Lemma show_folder_menu_reports_witness :
  exists consumed, ["1"; ""; "3"; "z"] = consumed ++ ["z"].
Proof.
  destruct (show_folder_menu_reports nt machine 9 ["C:\"]
              (typed ["1"; ""; "3"; "z"])) as [Hreads _].
  exact Hreads.
Defined.

(** X15: the folder menu ends within as many rounds as there are lines to
    read, and one more. *)
Theorem show_folder_menu_terminates (os : os_name) (fs : filesystem) (fuel : nat)
        (base_path : path) (t : tty) :
  length (stdin t) < fuel ->
  fst (show_folder_menu os fs fuel base_path t) <> OutOfFuel.
Proof.
  intros Hfuel.
  destruct (show_folder_menu os fs fuel base_path t) as [r t'] eqn:Hrun.
  apply show_folder_menu_run in Hrun as [_ Hend]. now apply Hend.
Qed.

Lemma show_folder_menu_terminates_witness :
  fst (show_folder_menu nt machine 4 ["C:\"] (typed ["1"; ""; "x"])) <> OutOfFuel.
Proof.
  apply (show_folder_menu_terminates nt machine 4 ["C:\"] (typed ["1"; ""; "x"])).
  simpl. lia.
Defined.

(** ** The main menu and the main loop *)

Section MainMenu.

Variable os : os_name.
Variable fs : filesystem.

(** The paths [main_menu(drive)] can scan: the drive and the
    sub-directories the folder menu lists for it. *)
Let within (drive : string) (p : path) : Prop :=
  p = drive_path drive \/ subfolder_of fs (drive_path drive) p.

Lemma main_menu_run fuel : forall drive t r t',
  main_menu os fs fuel drive t = (r, t') ->
  traced os fs (within drive) t t'
  /\ (length (stdin t) < fuel -> r <> OutOfFuel)
  /\ (r = Return tt -> exists before, stdin t = before ++ "3" :: stdin t')
  /\ (forall code, r = Throw (SystemExit code) ->
        code = 0%Z
        /\ (exists before, stdin t = before ++ "4" :: stdin t')
        /\ exists out, stdout t' = out ++ [Print "Goodbye!"]).
Proof.
  induction fuel as [| fuel IH]; intros drive t r t' Hrun.
  - injection Hrun as <- <-.
    split; [apply traced_refl |]. split; [lia |]. split; discriminate.
  - simpl in Hrun.
    apply io_bind_inv in Hrun
      as [(choice & t1 & Hin & Hrun) | [(x & Hin & ->) | [Hin ->]]].
    2:{ apply input_fails in Hin as (Hx & -> & _); [| discriminate].
        injection Hx as ->.
        split; [apply traced_refl |]. repeat split; discriminate. }
    2:{ apply input_fails in Hin as (Hno & _); discriminate. }
    assert (Hline : stdin t = choice :: stdin t1).
    { unfold input in Hin. destruct (stdin t); [discriminate |].
      now injection Hin as <- <-. }
    apply (traced_input os fs (within drive)) in Hin as [Htr1 Hlen1].
    assert (Hloop : forall t2 r0 t0,
               traced os fs (within drive) t1 t2 ->
               main_menu os fs fuel drive t2 = (r0, t0) ->
               traced os fs (within drive) t t0
               /\ (length (stdin t) < S fuel -> r0 <> OutOfFuel)
               /\ (r0 = Return tt -> exists before, stdin t = before ++ "3" :: stdin t0)
               /\ (forall code, r0 = Throw (SystemExit code) ->
                     code = 0%Z
                     /\ (exists before, stdin t = before ++ "4" :: stdin t0)
                     /\ exists out, stdout t0 = out ++ [Print "Goodbye!"])).
    { intros t2 r0 t0 Htr2 Hrest.
      apply IH in Hrest as (Htr & Hfuel & Hback & Hexit).
      pose proof (traced_length _ _ _ _ _ Htr2) as Hlen2.
      pose proof Htr2 as [[c2 Hc2] _]. unfold reads in Hc2.
      split; [eapply traced_trans; [exact Htr1 |];
              eapply traced_trans; [exact Htr2 | exact Htr] |].
      split; [intros Hlen; apply Hfuel; lia |]. split.
      - intros Hr. destruct (Hback Hr) as [before Hb].
        exists (choice :: c2 ++ before).
        rewrite Hline, Hc2, Hb. simpl. now rewrite <- app_assoc.
      - intros code Hr. destruct (Hexit code Hr) as (Hcode & [before Hb] & Hout).
        split; [exact Hcode |]. split; [| exact Hout].
        exists (choice :: c2 ++ before).
        rewrite Hline, Hc2, Hb. simpl. now rewrite <- app_assoc. }
    destruct (String.eqb_spec choice "1") as [-> | H1].
    { apply io_bind_inv in Hrun
        as [([] & t2 & Hcount & Hrun) | [(x & Hcount & ->) | [Hcount ->]]].
      - apply traced_count_and_report in Hcount as (Htr2 & _ & _).
        apply (traced_mono os fs _ (within drive)) in Htr2; [| intros p ->; now left].
        apply io_bind_inv in Hrun
          as [([] & t3 & Hpause & Hrun) | [(x & Hpause & ->) | [Hpause ->]]].
        + apply (traced_pause os fs (within drive)) in Hpause as [Htr3 _].
          apply (Hloop t3); [eapply traced_trans; eassumption | exact Hrun].
        + pose proof Hpause as Hp.
          apply (traced_pause os fs (within drive)) in Hpause as [Htr3 _].
          apply pause_run in Hp as (_ & _ & [(Hx & _) | (Hx & _)]); [| discriminate].
          injection Hx as ->.
          split; [eapply traced_trans; [exact Htr1 |]; eapply traced_trans; eassumption |].
          repeat split; discriminate.
        + apply (traced_pause os fs (within drive)) in Hpause as [_ Hfuel].
          now destruct Hfuel.
      - pose proof Hcount as Hc.
        apply traced_count_and_report in Hcount as (Htr2 & _ & _).
        apply (traced_mono os fs _ (within drive)) in Htr2; [| intros p ->; now left].
        split; [eapply traced_trans; eassumption |].
        unfold count_and_report in Hc.
        destruct (scan os fs (drive_path drive)) as [[res | e] out]; io_unfold;
          simpl in Hc; inversion Hc; subst.
        repeat split; discriminate.
      - apply traced_count_and_report in Hcount as (_ & Hfuel & _).
        now destruct Hfuel. }
    destruct (String.eqb_spec choice "2") as [-> | H2].
    { apply io_bind_inv in Hrun
        as [([] & t2 & Hmenu & Hrun) | [(x & Hmenu & ->) | [Hmenu ->]]].
      - apply show_folder_menu_run in Hmenu as [Htr2 _].
        apply (traced_mono os fs _ (within drive)) in Htr2; [| intros p Hp; now right].
        apply (Hloop t2); assumption.
      - pose proof Hmenu as Hm.
        apply show_folder_menu_run in Hmenu as [Htr2 _].
        apply (traced_mono os fs _ (within drive)) in Htr2; [| intros p Hp; now right].
        split; [eapply traced_trans; eassumption |].
        split; [discriminate |]. split; [discriminate |].
        intros code Hcode. injection Hcode as ->.
        now apply show_folder_menu_no_exit in Hm.
      - apply show_folder_menu_run in Hmenu as [Htr2 Hfuel].
        apply (traced_mono os fs _ (within drive)) in Htr2; [| intros p Hp; now right].
        split; [eapply traced_trans; eassumption |].
        split; [| split; discriminate].
        intros Hlen. apply Hfuel. lia. }
    destruct (String.eqb_spec choice "3") as [-> | H3].
    { injection Hrun as <- <-. split; [exact Htr1 |]. split; [discriminate |].
      split; [| discriminate]. intros _. now exists []. }
    destruct (String.eqb_spec choice "4") as [-> | H4].
    { io_unfold. injection Hrun as <- <-.
      split; [eapply traced_trans; [exact Htr1 | apply traced_print] |].
      split; [discriminate |]. split; [discriminate |].
      intros code Hcode. injection Hcode as <-. split; [reflexivity |].
      split; [now exists [] | now eexists]. }
    unfold io_bind at 1, print, write in Hrun.
    eapply Hloop; [| exact Hrun]. apply traced_print.
Qed.

End MainMenu.

(** X16: [main_menu] ends within as many rounds as there are lines to
    read, and one more. *)
Theorem main_menu_terminates (os : os_name) (fs : filesystem) (fuel : nat)
        (drive : string) (t : tty) :
  length (stdin t) < fuel ->
  fst (main_menu os fs fuel drive t) <> OutOfFuel.
Proof.
  intros Hfuel. destruct (main_menu os fs fuel drive t) as [r t'] eqn:Hrun.
  apply main_menu_run in Hrun as (_ & Hend & _). now apply Hend.
Qed.

Lemma main_menu_terminates_witness :
  fst (main_menu nt machine 6 "C:\" (typed ["2"; "1"; ""; "9"; "x"])) <> OutOfFuel.
Proof.
  apply (main_menu_terminates nt machine 6 "C:\" (typed ["2"; "1"; ""; "9"; "x"])).
  simpl. lia.
Defined.

(** X17: [main_menu] goes back to the drive selection only on reading the
    line [3], and ends the program only on reading the line [4], then with
    exit code 0 and [Goodbye!] as the last thing written. *)
Theorem main_menu_leaves (os : os_name) (fs : filesystem) (fuel : nat)
        (drive : string) (t : tty) :
  let r := fst (main_menu os fs fuel drive t) in
  let t' := snd (main_menu os fs fuel drive t) in
  (r = Return tt -> exists before, stdin t = before ++ "3" :: stdin t')
  /\ (forall code, r = Throw (SystemExit code) ->
        code = 0%Z
        /\ (exists before, stdin t = before ++ "4" :: stdin t')
        /\ exists out, stdout t' = out ++ [Print "Goodbye!"]).
Proof.
  intros r t'. subst r t'.
  destruct (main_menu os fs fuel drive t) as [r t'] eqn:Hrun. simpl.
  apply main_menu_run in Hrun as (_ & _ & Hback & Hexit). now split.
Qed.

Lemma main_menu_leaves_witness :
  exists before, ["x"; "2"; "3"; "3"; "1"] = before ++ "3" :: ["1"].
Proof.
  destruct (main_menu_leaves nt machine 9 "C:\" (typed ["x"; "2"; "3"; "3"; "1"]))
    as [Hback _].
  apply Hback. reflexivity.
Defined.

(** X18: whatever is typed, every result [main_menu] prints is for the
    drive or for a sub-directory the folder menu lists for the drive, with
    the figures the scan of that path returns, the category counts adding up
    to the number of files. *)
Theorem main_menu_reports (os : os_name) (fs : filesystem) (fuel : nat)
        (drive : string) (t : tty) :
  let t' := snd (main_menu os fs fuel drive t) in
  (exists consumed, stdin t = consumed ++ stdin t')
  /\ exists added,
      stdout t' = stdout t ++ added
      /\ forall selected r,
          In (Results selected r) added ->
          (selected = drive_path drive
           \/ subfolder_of fs (drive_path drive) selected)
          /\ fst (scan os fs selected) = Returned r
          /\ sum_values (category_counts r) = total_files r.
Proof.
  intros t'. subst t'.
  destruct (main_menu os fs fuel drive t) as [r t'] eqn:Hrun.
  apply main_menu_run in Hrun as ([Hreads (added & Hw & Hrep)] & _).
  split; [exact Hreads |]. exists added. split; [exact Hw |].
  intros selected res Hin. rewrite List.Forall_forall in Hrep.
  exact (Hrep _ Hin).
Qed.

Lemma main_menu_reports_witness :
  exists consumed, ["1"; ""; "3"; "z"] = consumed ++ ["z"].
Proof.
  destruct (main_menu_reports nt machine 9 "C:\" (typed ["1"; ""; "3"; "z"]))
    as [Hreads _].
  exact Hreads.
Defined.

(** X19: [main] never returns: whatever is typed and however long it runs,
    it ends only by an exception (the end of the input, the exit of option
    4, an error) or not at all. *)
Theorem main_never_returns (os : os_name) (fs : filesystem)
        (disk_partitions : list partition) (disk_usage : string -> result unit)
        (fuel : nat) (t : tty) :
  fst (main os fs disk_partitions disk_usage fuel t) <> Return tt.
Proof.
  revert t. induction fuel as [| fuel IH]; intros t; [discriminate |].
  destruct (main os fs disk_partitions disk_usage (S fuel) t) as [r t'] eqn:Hrun.
  simpl in *. intros ->.
  apply io_bind_inv in Hrun
    as [(drive & t1 & Hmenu & Hrun) | [(x & _ & Hx) | [_ Hx]]]; try discriminate.
  assert (Hnext : forall t2, main os fs disk_partitions disk_usage fuel t2
                             <> (Return tt, t')).
  { intros t2 Hmain. apply (IH t2). now rewrite Hmain. }
  destruct drive as [[| c d] |]; try (now apply Hnext in Hrun).
  apply io_bind_inv in Hrun
    as [([] & t2 & _ & Hrun) | [(x & _ & Hx) | [_ Hx]]]; try discriminate.
  now apply Hnext in Hrun.
Qed.

(** X20: with no drive to list, as on every system that is not Windows,
    [main] goes round for ever: it reads no line, writes [No drives
    found.] once a round, and is still running after any number of
    rounds. *)
Theorem main_no_drives (os : os_name) (fs : filesystem)
        (disk_partitions : list partition) (disk_usage : string -> result unit)
        (fuel : nat) (t : tty) :
  list_drives os fs disk_partitions = [] ->
  main os fs disk_partitions disk_usage (S fuel) t
  = (OutOfFuel,
     {| stdin := stdin t;
        stdout := stdout t ++ repeat (Print "No drives found.") fuel |}).
Proof.
  intros Hnone. revert t. induction fuel as [| fuel IH]; intros t.
  - destruct t as [lines out]. simpl. unfold io_bind, out_of_fuel. simpl.
    now rewrite app_nil_r.
  - change (main os fs disk_partitions disk_usage (S (S fuel)) t)
      with (io_bind (show_drive_menu os fs disk_partitions disk_usage (S fuel))
              (fun drive =>
                 match drive with
                 | Some (String c d) =>
                     io_bind (main_menu os fs (S fuel) (String c d))
                             (fun _ => main os fs disk_partitions disk_usage (S fuel))
                 | _ => main os fs disk_partitions disk_usage (S fuel)
                 end) t).
    unfold io_bind at 1.
    rewrite (show_drive_menu_no_drives_eq os fs disk_partitions disk_usage fuel t Hnone).
    rewrite IH. simpl. now rewrite <- app_assoc.
Qed.

Lemma main_no_drives_witness :
  main posix machine machine_partitions machine_usage 3 (typed ["1"; "4"])
  = (OutOfFuel,
     {| stdin := ["1"; "4"];
        stdout := [Print "No drives found."; Print "No drives found."] |}).
Proof.
  apply (main_no_drives posix machine machine_partitions machine_usage 2
           (typed ["1"; "4"])).
  reflexivity.
Defined.

(** * More on the counting pass *)

Section Counting.

Variable os : os_name.
Variable os_walk : path -> list (path * list string * list string).
Variable os_scandir : path -> result (list DirEntry).

Lemma incr_comm a b (m : gmap string nat) : incr a (incr b m) = incr b (incr a m).
Proof.
  unfold incr. destruct (decide (a = b)) as [-> | Hne]; [reflexivity |].
  rewrite !lookup_insert_ne by congruence. now apply insert_insert_ne.
Qed.

Lemma count_plain_comm st e e' :
  count_plain os (count_plain os st e) e' = count_plain os (count_plain os st e') e.
Proof.
  unfold count_plain.
  destruct (counts_as_file e), (counts_as_file e'),
           (counts_as_folder e), (counts_as_folder e'); simpl;
    try reflexivity; f_equal; apply incr_comm.
Qed.

Lemma tally_perm entries entries' :
  entries ≡ₚ entries' ->
  forall st, tally os st entries = tally os st entries'.
Proof.
  unfold tally.
  induction 1 as [| e l l' _ IH | e e' l | l l' l'' _ IH _ IH']; intros st; simpl.
  - reflexivity.
  - apply IH.
  - now rewrite count_plain_comm.
  - now rewrite IH.
Qed.

(** No entry raises exactly when there is no first one that does. *)
Lemma first_raise_None entries :
  first_raise entries = None <-> Forall (fun e => raises e = None) entries.
Proof.
  induction entries as [| e entries IH]; simpl.
  - split; [constructor | reflexivity].
  - destruct (raises e) as [err |] eqn:He.
    + split; [discriminate |]. intros H. inversion H. congruence.
    + rewrite IH. split; [now constructor | intros H; now inversion H].
Qed.

Lemma counted_all entries : first_raise entries = None -> counted entries = entries.
Proof.
  induction entries as [| e entries IH]; simpl; [reflexivity |].
  destruct (raises e); [discriminate |]. intros H. now rewrite IH.
Qed.

Lemma count_plain_keyed st e : keyed st -> keyed (count_plain os st e).
Proof.
  unfold keyed, count_plain. intros Hst.
  destruct (counts_as_file e); [| destruct (counts_as_folder e)]; simpl;
    intros category n Hn.
  - unfold incr in Hn.
    destruct (decide (categorize_file os (name e) = category)) as [<- | Hne].
    + rewrite lookup_insert_eq in Hn. injection Hn as <-. split.
      * exact (first_category_label _ FILE_CATEGORIES).
      * destruct (category_counts st !! categorize_file os (name e)) as [k |] eqn:Hk;
          simpl; [apply Hst in Hk; lia | lia].
    + rewrite lookup_insert_ne in Hn by assumption. apply Hst in Hn. split; [tauto | lia].
  - now apply Hst.
  - now apply Hst.
Qed.

End Counting.

(** X21: when the tests of no entry of a listing raise, the counters do
    not depend on the order in which the directory lists its entries:
    counting the listing and counting any rearrangement of it give the same
    files, folders and category counts, and no error. *)
Theorem count_entries_any_order (os : os_name) (st : ScanResult)
        (entries entries' : list DirEntry) :
  entries ≡ₚ entries' ->
  first_raise entries = None ->
  count_entries os st entries = count_entries os st entries'
  /\ snd (count_entries os st entries) = None.
Proof.
  intros Hperm Hnone.
  assert (Hnone' : first_raise entries' = None).
  { apply first_raise_None. apply first_raise_None in Hnone.
    rewrite List.Forall_forall in *. intros e He. apply Hnone.
    eapply Permutation_in; [symmetry; exact Hperm | exact He]. }
  rewrite !count_entries_counted, Hnone, Hnone'.
  rewrite (counted_all _ Hnone), (counted_all _ Hnone').
  split; [| reflexivity]. f_equal. now apply tally_perm.
Qed.

Lemma count_entries_any_order_witness :
  count_entries nt initial (map entry_of [File "a.jpg"; Dir "d" false true []; File "b.py"])
  = count_entries nt initial (map entry_of [File "b.py"; File "a.jpg"; Dir "d" false true []]).
Proof.
  apply (count_entries_any_order nt initial); [| reflexivity].
  apply Permutation_map.
  change ([File "a.jpg"; Dir "d" false true []] ++ [File "b.py"]
          ≡ₚ [File "b.py"] ++ [File "a.jpg"; Dir "d" false true []]).
  apply Permutation_app_comm.
Defined.

(** With an entry whose tests raise the order does matter: what comes
    after it in the listing is not counted. *)
Example count_entries_order_matters :
  fst (count_entries nt initial
         (map entry_of [File "a.jpg"; Link "into" PermissionError]))
  <> fst (count_entries nt initial
            (map entry_of [Link "into" PermissionError; File "a.jpg"])).
Proof.
  intros Heq. apply (f_equal total_files) in Heq. vm_compute in Heq. discriminate Heq.
Qed.

(** X22: whatever [os.walk] yields and [os.scandir] lists or raises, in
    the result of a scan that returns every key of [category_counts] is one
    of the eight labels, and its count is at least 1 and at most
    [total_files]: a category that got no file is not there. *)
Theorem category_counts_keys (os : os_name)
        (os_walk : path -> list (path * list string * list string))
        (os_scandir : path -> result (list DirEntry))
        (p : path) (r : ScanResult) (out : console) :
  count_files_with_details os os_walk os_scandir p = (Returned r, out) ->
  forall category n,
    category_counts r !! category = Some n ->
    In category labels /\ 1 <= n <= total_files r.
Proof.
  unfold count_files_with_details. intros Hrun.
  apply (counting_pass_invariant os os_scandir keyed) with (3 := Hrun).
  - intros st e. apply count_plain_keyed.
  - intros category n Hn. simpl in Hn. rewrite lookup_empty in Hn. discriminate.
Qed.

Lemma category_counts_keys_witness :
  In "Scripts" labels /\ 1 <= 1 <= total_files locked_sub_result.
Proof.
  apply (category_counts_keys nt (walk (tree locked_sub)) (scandir (tree locked_sub)) []
           locked_sub_result [(1, 2); (2, 2)]).
  - vm_compute. reflexivity.
  - vm_compute. reflexivity.
Defined.

(** X23: whatever [os.walk] yields, take the first directory it yields on
    which the work fails otherwise than with [PermissionError]: its
    listing raises such an error, or the tests of one of its entries do
    before any raises [PermissionError].  Then the scan raises that error,
    and the progress bar has been drawn for exactly the directories before
    that one. *)
Theorem scan_raises_at_first_failure (os : os_name)
        (os_walk : path -> list (path * list string * list string))
        (os_scandir : path -> result (list DirEntry))
        (p : path) (before : list path) (root : path) (after : list path)
        (e : OSError) :
  let all_dirs := map (fun '(root, dirs, files) => root) (os_walk p) in
  all_dirs = before ++ root :: after ->
  Forall (passes os_scandir) before ->
  visit_error os_scandir root = Some e ->
  e <> PermissionError ->
  count_files_with_details os os_walk os_scandir p
  = (Raised e, progress_calls 1 (length before) (length all_dirs)).
Proof.
  intros all_dirs Hdirs Hbefore Hroot He. unfold count_files_with_details.
  fold all_dirs. rewrite Hdirs at 2.
  now rewrite (counting_pass_raises os os_scandir _ before root after e).
Qed.

Lemma scan_raises_at_first_failure_witness :
  count_files_with_details nt
    (fun _ => [(["a"], [], []); (["gone"], [], []); (["b"], [], [])])
    (fun root => if String.eqb (hd "" root) "gone"
                 then Raise FileNotFoundError else Ok [])
    []
  = (Raised FileNotFoundError, [(1, 3)]).
Proof.
  apply (scan_raises_at_first_failure nt
           (fun _ => [(["a"], [], []); (["gone"], [], []); (["b"], [], [])])
           (fun root => if String.eqb (hd "" root) "gone"
                        then Raise FileNotFoundError else Ok [])
           [] [["a"]] ["gone"] [["b"]] FileNotFoundError).
  - reflexivity.
  - constructor; [reflexivity | constructor].
  - reflexivity.
  - discriminate.
Defined.

(** X24: on a file system that does not change during the scan, the scan
    of a path returns, with the bar drawn once for each directory the walk
    found, exactly when in no directory the walk finds below the path the
    tests of an entry raise another error than [PermissionError] before
    one raises that; a path that leads nowhere has no such directory. *)
Theorem scan_always_returns (os : os_name) (fs : filesystem) (p : path) :
  let total_dirs := length (walk (tree fs) p) in
  (forall n, resolve (tree fs) p = Ok n -> passable (fun _ => false) p n = true)
  <-> exists r, scan os fs p = (Returned r, progress_calls 1 total_dirs total_dirs).
Proof.
  intros total_dirs. split.
  - intros Hpass. destruct (resolve (tree fs) p) as [n | e] eqn:Hres.
    + eexists. exact (scan_still os fs p n Hres (Hpass n eq_refl)).
    + exists initial. subst total_dirs. unfold scan, count_files_with_details, walk.
      now rewrite Hres.
  - intros [r Hrun] n Hres.
    destruct (scan_listed os fs (fun _ => false) p n Hres) as (_ & Hscan & Hvisit).
    unfold scan in Hrun.
    assert (Hsame : count_files_with_details os (walk (tree fs)) (scandir (tree fs)) p
                    = count_files_with_details os (walk (tree fs))
                        (revoke (fun _ => false) (scandir (tree fs))) p)
      by reflexivity.
    rewrite Hsame, Hscan in Hrun.
    apply counting_pass_calls in Hrun as (k & _ & _ & Hall & ->).
    rewrite firstn_all in Hall. unfold passable. apply forallb_forall.
    intros x Hx. rewrite List.Forall_forall in Hvisit, Hall.
    destruct (Hvisit x Hx) as [Herr _]. simpl in Herr |- *. rewrite <- Herr.
    apply Hall. apply in_map_iff. now exists x.
Qed.

Lemma scan_always_returns_witness :
  exists r, scan nt half_way [] = (Returned r, [(1, 1)]).
Proof.
  apply (scan_always_returns nt half_way []).
  intros n Hres. injection Hres as <-. reflexivity.
Defined.

(** * More on splitting off the extension *)

Section Splitext.
Import PyStr OsPath.

Lemma substring_all s : substring 0 (String.length s) s = s.
Proof. induction s as [| c s IH]; simpl; [reflexivity | now rewrite IH]. Qed.

Lemma substring_join s : forall n,
  String.append (substring 0 n s) (substring n (String.length s - n) s) = s.
Proof.
  induction s as [| c s IH]; intros [| n]; simpl; try reflexivity.
  - now rewrite substring_all.
  - change (String c (String.append (substring 0 n s)
                                    (substring n (String.length s - n) s))
            = String c s).
    now rewrite IH.
Qed.

Lemma append_empty s : String.append s "" = s.
Proof.
  induction s as [| c s IH]; [reflexivity |].
  change (String c (String.append s "") = String c s). now rewrite IH.
Qed.

Lemma take_drop_join d p : String.append (take d p) (drop d p) = p.
Proof. apply substring_join. Qed.

Lemma skip_leading_dots_Some n p : forall i d c r,
  skip_leading_dots n p i d c = Some r -> r = (take d p, drop d p).
Proof.
  induction n as [| n IH]; simpl; intros i d c r H; [discriminate |].
  destruct (i <? d)%Z; [| discriminate].
  destruct (negb _); [now injection H as <- | eapply IH, H].
Qed.

(** What [_splitext] returns: the whole of [p] and nothing, or [p] cut at
    its last dot, which then lies after the last separator. *)
Lemma _splitext_cases p sep altsep :
  _splitext p sep altsep "." = (p, "")
  \/ (_splitext p sep altsep "." = (take (rfind p ".") p, drop (rfind p ".") p)
      /\ (rfind p sep < rfind p ".")%Z
      /\ (forall a, altsep = Some a -> (rfind p a < rfind p ".")%Z)).
Proof.
  unfold _splitext.
  set (sepIndex := match altsep with
                   | Some a => Z.max (rfind p sep) (rfind p a)
                   | None => rfind p sep
                   end).
  destruct (Z.gtb_spec (rfind p ".") sepIndex) as [Hgt | Hle].
  - destruct (skip_leading_dots _ p (sepIndex + 1) (rfind p ".") ".") as [r |] eqn:Hskip.
    + right. apply skip_leading_dots_Some in Hskip as ->. split; [reflexivity |].
      subst sepIndex. destruct altsep as [a |]; split; try lia.
      * intros a' Ha. injection Ha as <-. lia.
      * discriminate.
    + left. destruct p; reflexivity.
  - left. destruct p; reflexivity.
Qed.

Lemma rfind_from_ge c s : forall i last,
  (last < i)%Z -> (last <= rfind_from i last s c)%Z.
Proof.
  induction s as [| a s IH]; simpl; intros i last Hlt; [lia |].
  destruct (Ascii.eqb a c).
  - specialize (IH (i + 1)%Z i). lia.
  - specialize (IH (i + 1)%Z last). lia.
Qed.

(** Where [rfind] points, the character is there and does not come again. *)
Lemma rfind_from_found c s : forall i last,
  (last < i)%Z ->
  let r := rfind_from i last s c in
  (r = last /\ free_of c s = true)
  \/ exists k rest,
      r = (i + Z.of_nat k)%Z
      /\ substring k (String.length s - k) s = String c rest
      /\ free_of c rest = true.
Proof.
  induction s as [| a s IH]; intros i last Hlt; simpl; [now left |].
  destruct (Ascii.eqb_spec a c) as [-> | Hne]; simpl.
  - right. destruct (IH (i + 1)%Z i) as [[Hr Hfree] | (k & rest & Hr & Hsub & Hfree)];
      [lia | |].
    + exists 0, s. simpl. rewrite substring_all. repeat split; [lia | assumption].
    + exists (S k), rest. simpl. repeat split; [lia | assumption | assumption].
  - destruct (IH (i + 1)%Z last) as [[Hr Hfree] | (k & rest & Hr & Hsub & Hfree)];
      [lia | |].
    + left. now split.
    + right. exists (S k), rest. simpl. repeat split; [lia | assumption | assumption].
Qed.

(** After where [rfind] points, the character does not come. *)
Lemma rfind_from_after c s : forall i last j,
  (last < i)%Z ->
  (rfind_from i last s c < i + Z.of_nat j)%Z ->
  free_of c (substring j (String.length s - j) s) = true.
Proof.
  induction s as [| a s IH]; intros i last j Hlt Hr.
  - now destruct j.
  - simpl in Hr. destruct j as [| j].
    + simpl. rewrite substring_all.
      destruct (Ascii.eqb_spec a c) as [-> | Hne]; simpl.
      * pose proof (rfind_from_ge c s (i + 1)%Z i). lia.
      * specialize (IH (i + 1)%Z last 0). rewrite Nat.sub_0_r, substring_all in IH.
        apply IH; lia.
    + simpl. apply (IH (i + 1)%Z (if Ascii.eqb a c then i else last) j).
      * destruct (Ascii.eqb a c); lia.
      * lia.
Qed.

Lemma free_of_tail c d s : free_of c (String d s) = true -> free_of c s = true.
Proof. simpl. intros H. now apply andb_true_iff in H as [_ H]. Qed.

End Splitext.

(** [os.path.splitext] only cuts: the root and the extension it returns,
    put together again, are the path it was given. *)
Lemma splitext_root_ext (os : os_name) (p : string) :
  String.append (fst (OsPath.splitext os p)) (snd (OsPath.splitext os p)) = p.
Proof.
  assert (H : forall sep altsep,
             String.append (fst (OsPath._splitext p sep altsep "."))
                           (snd (OsPath._splitext p sep altsep ".")) = p).
  { intros sep altsep.
    destruct (_splitext_cases p sep altsep) as [-> | [-> _]]; simpl.
    - apply append_empty.
    - apply take_drop_join. }
  destruct os; apply H.
Qed.

(** The extension [os.path.splitext] returns is empty, or it is a dot
    followed by characters among which there is no dot and no separator of
    the platform. *)
Lemma splitext_extension (os : os_name) (p : string) :
  let ext := snd (OsPath.splitext os p) in
  ext = ""
  \/ exists rest,
      ext = String "." rest
      /\ free_of "." rest = true
      /\ free_of "/" rest = true
      /\ (os = nt -> free_of "\" rest = true).
Proof.
  assert (H : forall sep altsep,
             let ext := snd (OsPath._splitext p sep altsep ".") in
             ext = ""
             \/ exists rest,
                 ext = String "." rest
                 /\ free_of "." rest = true
                 /\ (sep <> "."%char -> free_of sep rest = true)
                 /\ (forall a, altsep = Some a -> a <> "."%char ->
                               free_of a rest = true)).
  { intros sep altsep.
    destruct (_splitext_cases p sep altsep) as [-> | (-> & Hsep & Halt)];
      [now left |].
    simpl. right. unfold PyStr.rfind in *.
    destruct (rfind_from_found "." p 0 (-1)) as [[Hr _] | (k & rest & Hr & Hsub & Hfree)];
      [lia | |].
    { pose proof (rfind_from_ge sep p 0 (-1)). lia. }
    rewrite Z.add_0_l in Hr. exists rest. unfold PyStr.drop.
    rewrite Hr, Nat2Z.id. split; [exact Hsub |]. split; [exact Hfree |].
    assert (Hafter : forall c, c <> "."%char ->
                       (PyStr.rfind_from 0 (-1) p c < PyStr.rfind_from 0 (-1) p ".")%Z ->
                       free_of c rest = true).
    { intros c Hc Hlt.
      pose proof (rfind_from_after c p 0 (-1) k) as Hf.
      rewrite Hsub in Hf. apply free_of_tail with (d := "."%char).
      apply Hf; lia. }
    split.
    - intros Hne. now apply Hafter.
    - intros a Ha Hne. apply Hafter; [exact Hne | now apply Halt]. }
  intros ext. subst ext.
  destruct os; simpl.
  - destruct (H "\"%char (Some "/"%char)) as [-> | (rest & -> & Hdot & Hsep & Halt)];
      [now left |].
    right. exists rest. repeat split; try assumption.
    + apply (Halt "/"%char); [reflexivity | discriminate].
    + intros _. apply Hsep. discriminate.
  - destruct (H "/"%char None) as [-> | (rest & -> & Hdot & Hsep & Halt)];
      [now left |].
    right. exists rest. repeat split; try assumption.
    + apply Hsep. discriminate.
    + discriminate.
Qed.

(** * Letter case *)

Section LetterCase.
Import PyStr OsPath.

Lemma eqb_lower_char a c :
  In c ["."; "/"; "\"]%char -> Ascii.eqb (lower_char a) c = Ascii.eqb a c.
Proof.
  intros Hc. destruct (Ascii.eqb_spec a c) as [-> | Hne].
  - apply Ascii.eqb_eq. simpl in Hc.
    destruct Hc as [<- | [<- | [<- | []]]]; reflexivity.
  - apply Ascii.eqb_neq. intros Heq. apply Hne.
    now apply (lower_char_keeps a c).
Qed.

Lemma lower_char_idem a : lower_char (lower_char a) = lower_char a.
Proof. destruct a as [[] [] [] [] [] [] [] []]; reflexivity. Qed.

Lemma lower_idem s : lower (lower s) = lower s.
Proof.
  induction s as [| a s IH]; simpl; [reflexivity |].
  now rewrite lower_char_idem, IH.
Qed.

Lemma length_lower s : String.length (lower s) = String.length s.
Proof. induction s as [| a s IH]; simpl; [reflexivity | now rewrite IH]. Qed.

Lemma substring_lower s : forall n m,
  substring n m (lower s) = lower (substring n m s).
Proof.
  induction s as [| a s IH]; intros [| n] [| m]; simpl; try reflexivity;
    now rewrite ?IH.
Qed.

Lemma rfind_from_lower c s : In c ["."; "/"; "\"]%char ->
  forall i last, rfind_from i last (lower s) c = rfind_from i last s c.
Proof.
  intros Hc. induction s as [| a s IH]; simpl; intros i last; [reflexivity |].
  now rewrite eqb_lower_char, IH.
Qed.

Lemma eqb_dot_lower s : String.eqb (lower s) "." = String.eqb s ".".
Proof.
  destruct s as [| a [| b s]]; simpl; try reflexivity.
  - now rewrite (eqb_lower_char a "."%char) by now left.
  - rewrite (eqb_lower_char a "."%char) by now left.
    destruct (Ascii.eqb a "."); reflexivity.
Qed.

Lemma skip_leading_dots_lower n p : forall i d,
  skip_leading_dots n (lower p) i d "."
  = match skip_leading_dots n p i d "." with
    | Some (root, ext) => Some (lower root, lower ext)
    | None => None
    end.
Proof.
  induction n as [| n IH]; simpl; intros i d; [reflexivity |].
  destruct (i <? d)%Z; [| reflexivity].
  unfold slice1. rewrite substring_lower, eqb_dot_lower.
  destruct (negb _); [| apply IH].
  unfold take, drop. now rewrite !substring_lower, length_lower.
Qed.

Lemma _splitext_lower p sep altsep :
  In sep ["."; "/"; "\"]%char ->
  (forall a, altsep = Some a -> In a ["."; "/"; "\"]%char) ->
  _splitext (lower p) sep altsep "."
  = (lower (fst (_splitext p sep altsep ".")),
     lower (snd (_splitext p sep altsep "."))).
Proof.
  intros Hsep Halt. unfold _splitext, rfind.
  rewrite !rfind_from_lower by (assumption || now left).
  assert (Hsame : match altsep with
                  | Some a => Z.max (rfind_from 0 (-1) p sep)
                                    (rfind_from 0 (-1) (lower p) a)
                  | None => rfind_from 0 (-1) p sep
                  end
                  = match altsep with
                    | Some a => Z.max (rfind_from 0 (-1) p sep) (rfind_from 0 (-1) p a)
                    | None => rfind_from 0 (-1) p sep
                    end).
  { destruct altsep as [a |]; [| reflexivity].
    now rewrite rfind_from_lower by now apply Halt. }
  rewrite Hsame.
  destruct (_ >? _)%Z; [| unfold take; now rewrite substring_lower].
  rewrite skip_leading_dots_lower.
  destruct (skip_leading_dots _ p _ _ _) as [[root ext] |]; [reflexivity |].
  unfold take. now rewrite substring_lower.
Qed.

End LetterCase.

(** X26: the category of a name does not depend on its letter case: the
    name in lower case gets the category of the name. *)
Theorem categorize_file_lower (os : os_name) (file_path : string) :
  categorize_file os (PyStr.lower file_path) = categorize_file os file_path.
Proof.
  unfold categorize_file.
  assert (Hext : snd (OsPath.splitext os (PyStr.lower file_path))
                 = PyStr.lower (snd (OsPath.splitext os file_path))).
  { destruct os; unfold OsPath.splitext; rewrite _splitext_lower; try reflexivity.
    - right. right. now left.
    - intros a Ha. injection Ha as <-. right. now left.
    - right. now left.
    - discriminate. }
  now rewrite Hext, lower_idem.
Qed.

(** X25: a name is put in a category of the table only if it ends, in some
    letter case, with one of the extensions of that category: it is a root
    followed by an extension whose lower case the row of the category
    holds. *)
Theorem categorize_file_suffix (os : os_name) (file_path category : string) :
  categorize_file os file_path = category ->
  category <> "Other" ->
  exists root ext extensions,
    file_path = String.append root ext
    /\ In (category, extensions) FILE_CATEGORIES
    /\ In (PyStr.lower ext) extensions.
Proof.
  intros Hcat Hother.
  exists (fst (OsPath.splitext os file_path)), (snd (OsPath.splitext os file_path)).
  unfold categorize_file in Hcat.
  set (ext := PyStr.lower (snd (OsPath.splitext os file_path))) in *.
  assert (Hrow : exists extensions,
             In (category, extensions) FILE_CATEGORIES /\ In ext extensions).
  { revert Hcat. generalize FILE_CATEGORIES as table.
    induction table as [| [c e] table IH]; simpl; intros Hcat; [congruence |].
    destruct (ext_in ext e) eqn:Hin.
    - subst c. exists e. split; [now left | now apply ext_in_spec].
    - destruct (IH Hcat) as (extensions & Hrow & Hext).
      exists extensions. split; [now right | exact Hext]. }
  destruct Hrow as (extensions & Hrow & Hext).
  exists extensions. split; [symmetry; apply splitext_root_ext | now split].
Qed.

Lemma categorize_file_suffix_witness :
  exists root ext extensions,
    "Holiday.JPG" = String.append root ext
    /\ In ("Images", extensions) FILE_CATEGORIES
    /\ In (PyStr.lower ext) extensions.
Proof.
  apply (categorize_file_suffix nt "Holiday.JPG" "Images").
  - reflexivity.
  - discriminate.
Defined.

(** * Paths with directories *)

Section LastComponent.
Import PyStr OsPath.

Lemma rfind_from_app c s1 s2 : forall i last,
  rfind_from i last (String.append s1 s2) c
  = rfind_from (i + Z.of_nat (String.length s1)) (rfind_from i last s1 c) s2 c.
Proof.
  induction s1 as [| a s1 IH]; intros i last.
  - simpl. now rewrite Z.add_0_r.
  - change (String.append (String a s1) s2) with (String a (String.append s1 s2)).
    simpl rfind_from at 1. rewrite IH. simpl rfind_from at 3.
    f_equal. simpl String.length. lia.
Qed.

Lemma rfind_from_lt c s : forall i last,
  (last < i)%Z -> (rfind_from i last s c < i + Z.of_nat (String.length s))%Z.
Proof.
  induction s as [| a s IH]; simpl String.length; simpl rfind_from; intros i last Hlt;
    [lia |].
  destruct (Ascii.eqb a c).
  - specialize (IH (i + 1)%Z i). lia.
  - specialize (IH (i + 1)%Z last). lia.
Qed.

(** [rfind_from] started elsewhere finds the same place, moved. *)
Lemma rfind_from_shift c s : forall i last,
  rfind_from i last s c
  = if (rfind s c <? 0)%Z then last else (i + rfind s c)%Z.
Proof.
  unfold rfind. induction s as [| a s IH]; intros i last; [reflexivity |].
  simpl rfind_from. rewrite (IH (i + 1)%Z), (IH (0 + 1)%Z).
  pose proof (rfind_from_ge c s 0 (-1)) as Hge.
  destruct (Z.ltb_spec (rfind_from 0 (-1) s c) 0) as [Hneg | Hpos].
  - destruct (Ascii.eqb a c); simpl; [f_equal; lia | reflexivity].
  - destruct (Z.ltb_spec (0 + 1 + rfind_from 0 (-1) s c) 0); lia.
Qed.

Lemma rfind_join c dir sep name :
  rfind (String.append dir (String sep name)) c
  = if (rfind name c <? 0)%Z
    then (if Ascii.eqb sep c then Z.of_nat (String.length dir) else rfind dir c)
    else (Z.of_nat (String.length dir) + 1 + rfind name c)%Z.
Proof.
  unfold rfind at 1. rewrite rfind_from_app. simpl rfind_from.
  rewrite rfind_from_shift. rewrite Z.add_0_l. reflexivity.
Qed.

Lemma substring_skip s1 s2 : forall n m,
  substring (String.length s1 + n) m (String.append s1 s2) = substring n m s2.
Proof.
  induction s1 as [| a s1 IH]; intros n m; [reflexivity |].
  change (String.append (String a s1) s2) with (String a (String.append s1 s2)).
  simpl. apply IH.
Qed.

Lemma length_append s1 s2 :
  String.length (String.append s1 s2) = String.length s1 + String.length s2.
Proof.
  induction s1 as [| a s1 IH]; [reflexivity |].
  change (String.append (String a s1) s2) with (String a (String.append s1 s2)).
  simpl. now rewrite IH.
Qed.

Lemma take_zero s : take 0 s = "".
Proof. now destruct s. Qed.

Variable dir name : string.
Variable sep : ascii.

Let p := String.append dir (String sep name).
Let L := Z.of_nat (String.length dir).

Lemma slice1_join j :
  slice1 p (L + 1 + Z.of_nat j) = slice1 name (Z.of_nat j).
Proof.
  unfold slice1, p, L.
  replace (Z.to_nat (Z.of_nat (String.length dir) + 1 + Z.of_nat j))
    with (String.length dir + S j) by lia.
  rewrite substring_skip, Nat2Z.id. reflexivity.
Qed.

Lemma drop_join d :
  (0 <= d)%Z -> drop (L + 1 + d) p = drop d name.
Proof.
  intros Hd. unfold drop, p, L.
  replace (Z.to_nat (Z.of_nat (String.length dir) + 1 + d))
    with (String.length dir + S (Z.to_nat d)) by lia.
  rewrite substring_skip, length_append. simpl.
  f_equal. lia.
Qed.

Lemma skip_leading_dots_join n d : forall j,
  (0 <= d)%Z ->
  snd <$> skip_leading_dots n p (L + 1 + Z.of_nat j) (L + 1 + d) "."
  = snd <$> skip_leading_dots n name (Z.of_nat j) d ".".
Proof.
  induction n as [| n IH]; intros j Hd; [reflexivity |]. simpl.
  destruct (Z.ltb_spec (L + 1 + Z.of_nat j) (L + 1 + d)),
           (Z.ltb_spec (Z.of_nat j) d); try lia; [| reflexivity].
  rewrite slice1_join. destruct (negb _).
  - simpl. now rewrite drop_join.
  - replace (L + 1 + Z.of_nat j + 1)%Z with (L + 1 + Z.of_nat (S j))%Z by lia.
    replace (Z.of_nat j + 1)%Z with (Z.of_nat (S j)) by lia.
    now apply IH.
Qed.

(** The extension of a path is that of its last component. *)
Lemma _splitext_join s a :
  free_of s name = true ->
  (forall c, a = Some c -> free_of c name = true) ->
  sep = s \/ a = Some sep ->
  s <> "."%char -> a <> Some "."%char ->
  snd (_splitext p s a ".") = snd (_splitext name s a ".").
Proof.
  intros Hs Ha Hsep Hsdot Hadot. unfold _splitext.
  assert (Hsep_dot : Ascii.eqb sep "." = false).
  { apply Ascii.eqb_neq. intros ->. destruct Hsep; congruence. }
  assert (Hfree : forall c, free_of c name = true -> rfind name c = (-1)%Z)
    by (intros c Hc; now apply rfind_from_free).
  assert (Hdir : forall c, (-1 <= rfind dir c < L)%Z).
  { intros c. split; [now apply rfind_from_ge |].
    apply (rfind_from_lt c dir 0 (-1)). lia. }
  assert (HsepIndex :
            match a with
            | Some c => Z.max (rfind p s) (rfind p c)
            | None => rfind p s
            end = L
            /\ match a with
               | Some c => Z.max (rfind name s) (rfind name c)
               | None => rfind name s
               end = (-1)%Z).
  { unfold p. rewrite !rfind_join, (Hfree s Hs). simpl.
    destruct a as [c |].
    - rewrite rfind_join, (Hfree c (Ha c eq_refl)). simpl. fold L.
      pose proof (Hdir s). pose proof (Hdir c). split; [| reflexivity].
      destruct Hsep as [-> | Hc].
      + rewrite Ascii.eqb_refl. destruct (Ascii.eqb s c); lia.
      + injection Hc as <-. rewrite Ascii.eqb_refl. destruct (Ascii.eqb c s); lia.
    - destruct Hsep as [-> | Hc]; [| discriminate].
      rewrite Ascii.eqb_refl. now split. }
  destruct HsepIndex as [-> ->].
  assert (Hdot : rfind p "."
                 = if (rfind name "." <? 0)%Z then rfind dir "."
                   else (L + 1 + rfind name ".")%Z).
  { unfold p. now rewrite rfind_join, Hsep_dot. }
  rewrite Hdot. clear Hdot.
  pose proof (rfind_from_ge "." name 0 (-1)) as Hge. fold (rfind name ".") in Hge.
  destruct (Z.ltb_spec (rfind name ".") 0) as [Hneg | Hpos].
  - pose proof (Hdir "."%char).
    destruct (Z.gtb_spec (rfind dir ".") L); [lia |].
    destruct (Z.gtb_spec (rfind name ".") (-1)); [lia |].
    simpl. now rewrite !take_zero.
  - destruct (Z.gtb_spec (L + 1 + rfind name ".") L); [| lia].
    destruct (Z.gtb_spec (rfind name ".") (-1)); [| lia].
    replace (L + 1 + rfind name "." - (L + 1))%Z with (rfind name ".") by lia.
    replace (rfind name "." - (-1 + 1))%Z with (rfind name ".") by lia.
    pose proof (skip_leading_dots_join (Z.to_nat (rfind name ".")) (rfind name ".") 0)
      as Hskip.
    change (Z.of_nat 0) with 0%Z in Hskip. rewrite Z.add_0_r in Hskip.
    change (-1 + 1)%Z with 0%Z. specialize (Hskip ltac:(lia)).
    destruct (skip_leading_dots _ p _ _ _) as [[r e] |],
             (skip_leading_dots _ name _ _ _) as [[r' e'] |];
      simpl in Hskip; try discriminate;
      [now injection Hskip as -> | simpl; now rewrite !take_zero].
Qed.

End LastComponent.

(** X27: the category of a path is that of its last component: a
    directory and a separator of the platform in front of a name that has
    no separator in it change nothing. *)
Theorem categorize_file_last_component (os : os_name) (dir name : string)
        (sep : ascii) :
  sep = "/"%char \/ (os = nt /\ sep = "\"%char) ->
  free_of "/" name = true ->
  (os = nt -> free_of "\" name = true) ->
  categorize_file os (String.append dir (String sep name)) = categorize_file os name.
Proof.
  intros Hsep Hslash Hback. unfold categorize_file. do 2 f_equal.
  destruct os; unfold OsPath.splitext.
  - apply _splitext_join.
    + now apply Hback.
    + intros c Hc. now injection Hc as <-.
    + destruct Hsep as [-> | [_ ->]]; [now right | now left].
    + discriminate.
    + discriminate.
  - apply _splitext_join.
    + exact Hslash.
    + discriminate.
    + destruct Hsep as [-> | [Hos _]]; [now left | discriminate].
    + discriminate.
    + discriminate.
Qed.

Lemma categorize_file_last_component_witness :
  categorize_file nt "C:\Users\me.d\Holiday.JPG" = categorize_file nt "Holiday.JPG".
Proof.
  apply (categorize_file_last_component nt "C:\Users\me.d" "Holiday.JPG" "\"%char).
  - right. now split.
  - reflexivity.
  - reflexivity.
Defined.

